(** * IMEI checker: the model (IMEModel) and the controller (IMEController)

    A shallow embedding of [imei_checker_gui.py]: the Luhn check digit
    [IMEModel.calcular_digito_verificacao], the cached remote lookup
    [IMEModel.get_device_info] and the batch loop
    [IMEController.process_imeis], together with the calls the controller
    makes on the view.

    Conventions of the embedding.
    - A Python [str] is a [string]; its characters are the code points
      below 256.  Identifiers, digits and white space live there.
    - Python exceptions are values of [exn]; a computation that may raise
      returns a [result].  Only classes below [Exception] are modelled:
      [KeyboardInterrupt], [SystemExit] and task cancellation come from the
      interpreter and the event loop, not from the code embedded here.
    - The coroutine [process_imeis] is run to completion by
      [loop.run_until_complete] and awaits one request at a time, so its
      effects are threaded through a state in program order.
    - The remote service is a parameter: any state [T] and any function
      giving the outcome of a GET in it.  The view is kept as the data its
      widgets hold; its methods return normally. *)

From Stdlib Require Import ZArith Ascii QArith.
From stdpp Require Import base list strings gmap.

Local Open Scope Z_scope.
Set Warnings "-register-all".

(** ** Exceptions and results *)

Inductive exn_class :=
  | ValueError
  | AttributeError
  | ClientError          (* aiohttp.ClientError and its subclasses *)
  | TimeoutError         (* asyncio.TimeoutError *)
  | JSONDecodeError      (* a subclass of ValueError *)
  | KeyError
  | OtherException.      (* any other subclass of Exception *)

Record exn := Exn { exn_class_of : exn_class; exn_str : string }.

(** [isinstance(e, ValueError)], as [except ValueError] tests it. *)
Definition is_ValueError (e : exn) : bool :=
  match exn_class_of e with
  | ValueError | JSONDecodeError => true
  | _ => false
  end.

Inductive result (A : Type) :=
  | Ok (a : A)
  | Raise (e : exn).
Arguments Ok {A} a.
Arguments Raise {A} e.

Definition rbind {A B} (r : result A) (k : A → result B) : result B :=
  match r with
  | Ok a => k a
  | Raise e => Raise e
  end.

Notation "'let*' x ':=' r 'in' k" := (rbind r (λ x, k))
  (at level 10, x name, r at level 100, k at level 200, only parsing).

(** ** Characters and strings, as Python sees them *)

Definition ord (c : ascii) : Z := Z.of_N (N_of_ascii c).
Definition chr (n : Z) : ascii := ascii_of_N (Z.to_N n).

Definition chars (s : string) : list ascii := String.list_ascii_of_string s.

(** [len(s)] *)
Definition len (s : string) : Z := Z.of_nat (String.length s).

(** The ten decimal digits ['0'..'9']. *)
Definition is_decimal (c : ascii) : bool := (48 <=? ord c) && (ord c <=? 57).

(** [c.isdigit()] on one character: the decimal digits and, below 256, the
    superscripts two, three and one (U+00B2, U+00B3, U+00B9). *)
Definition char_isdigit (c : ascii) : bool :=
  is_decimal c || (ord c =? 178) || (ord c =? 179) || (ord c =? 185).

(** [s.isdigit()]: every character is a digit and there is at least one. *)
Definition isdigit (s : string) : bool :=
  match chars s with
  | [] => false
  | cs => forallb char_isdigit cs
  end.

(** White space for [str.strip()], below 256. *)
Definition char_isspace (c : ascii) : bool :=
  let n := ord c in
  ((9 <=? n) && (n <=? 13)) || ((28 <=? n) && (n <=? 32))
  || (n =? 133) || (n =? 160).

Fixpoint lstrip_chars (cs : list ascii) : list ascii :=
  match cs with
  | c :: cs' => if char_isspace c then lstrip_chars cs' else cs
  | [] => []
  end.

(** [s.strip()] *)
Definition strip (s : string) : string :=
  String.string_of_list_ascii
    (rev (lstrip_chars (rev (lstrip_chars (chars s))))).

(** Truth value of a string: non-empty. *)
Definition str_truthy (s : string) : bool :=
  match s with
  | EmptyString => false
  | String _ _ => true
  end.

(** [str(d)] for [d] in [range(10)]. *)
Definition str_digit (d : nat) : string :=
  String (chr (48 + Z.of_nat d)) EmptyString.

(** [range(n)] *)
Definition range (n : nat) : list nat := seq 0 n.

(** [int(char)] on a one-character string: the value of a decimal digit,
    [ValueError] on anything else.  (The text of the message quotes the
    character without Python's escaping.) *)
Definition int_of_char (char : ascii) : result Z :=
  if is_decimal char then Ok (ord char - 48)
  else Raise (Exn ValueError
                ("invalid literal for int() with base 10: '"
                 +:+ String char "'")).

(** Letters with accents in the program's messages, as code points. *)
Definition a_acute : string := String (chr 225) "".
Definition i_acute : string := String (chr 237) "".

(** ** IMEModel.calcular_digito_verificacao *)

(** One turn of the loop over [enumerate(imei[::-1])]. *)
Definition luhn_step (i : nat) (char : ascii) (soma : Z) : result Z :=
  let* digito := int_of_char char in
  let digito :=
    if Z.of_nat i mod 2 =? 1 then
      let digito := digito * 2 in
      if digito >? 9 then digito - 9 else digito
    else digito in
  Ok (soma + digito).

Fixpoint luhn_loop (i : nat) (cs : list ascii) (soma : Z) : result Z :=
  match cs with
  | [] => Ok soma
  | char :: cs' =>
      let* soma' := luhn_step i char soma in
      luhn_loop (S i) cs' soma'
  end.

Definition calcular_digito_verificacao (imei : string) : result Z :=
  if negb (len imei =? 14) then
    Raise (Exn ValueError
             ("O IMEI deve ter exatamente 14 d" +:+ i_acute +:+ "gitos."))
  else
    let* soma := luhn_loop 0 (rev (chars imei)) 0 in
    Ok ((10 - (soma mod 10)) mod 10).

(** ** Values of a JSON payload, as [response.json()] returns them

    A [dict] is kept as its list of items; its keys are distinct, so
    [dict_get] may take the first item with the key.  A finite [float] is
    the rational it denotes. *)

Inductive pyval :=
  | PNone
  | PBool (b : bool)
  | PInt (n : Z)
  | PFloat (q : Q)
  | PStr (s : string)
  | PList (l : list pyval)
  | PDict (d : list (string * pyval)).

Definition type_name (v : pyval) : string :=
  match v with
  | PNone => "NoneType"
  | PBool _ => "bool"
  | PInt _ => "int"
  | PFloat _ => "float"
  | PStr _ => "str"
  | PList _ => "list"
  | PDict _ => "dict"
  end.

(** Truth value of a Python value, as [and] and [if] test it. *)
Definition truthy (v : pyval) : bool :=
  match v with
  | PNone => false
  | PBool b => b
  | PInt n => negb (n =? 0)
  | PFloat q => negb (Qnum q =? 0)
  | PStr s => str_truthy s
  | PList l => match l with [] => false | _ => true end
  | PDict d => match d with [] => false | _ => true end
  end.

(** [v == s] for a string literal [s]. *)
Definition eq_str (v : pyval) (s : string) : bool :=
  match v with
  | PStr t => bool_decide (t = s)
  | _ => false
  end.

Fixpoint dict_get (d : list (string * pyval)) (key : string) : option pyval :=
  match d with
  | [] => None
  | (k, v) :: d' => if bool_decide (k = key) then Some v else dict_get d' key
  end.

(** [v.get(key)]: [None] for a missing key; only a [dict] has [get]. *)
Definition py_get (v : pyval) (key : string) : result pyval :=
  match v with
  | PDict d => Ok (default PNone (dict_get d key))
  | _ => Raise (Exn AttributeError
                  ("'" +:+ type_name v +:+ "' object has no attribute 'get'"))
  end.

(** [v[key]] for a string key, on the values a payload can hold. *)
Definition py_getitem (v : pyval) (key : string) : result pyval :=
  match v with
  | PDict d =>
      match dict_get d key with
      | Some x => Ok x
      | None => Raise (Exn KeyError ("'" +:+ key +:+ "'"))
      end
  | _ => Raise (Exn OtherException
                  ("'" +:+ type_name v +:+ "' object is not subscriptable"))
  end.

(** The record built for a device (the dict [device_info]). *)
Record device_info := DeviceInfo {
  IMEI : string;
  Marca : pyval;
  Modelo : pyval;
  Sistema_Operacional : string
}.

(** ** The remote service

    What [session.get(url)] gives back: it raises (connection error,
    timeout) or yields a response with a status code, whose [json()] in
    turn yields the parsed payload or raises. *)

Record response := Response {
  status : Z;
  json : result pyval
}.

(** [response.raise_for_status()]: statuses from 400 up raise. *)
Definition raise_for_status (r : response) : result unit :=
  if 400 <=? status r then
    Raise (Exn ClientError "ClientResponseError")
  else Ok tt.

Definition API_URL : string := "https://dash.imei.info/api/check/0/".

(** Lines written by [logging]; a record keeps the arguments of the
    f-string rather than the rendered text. *)
Inductive log_record :=
  | INFO_cache (imei : string)
      (* "Retornando dados do cache para IMEI: {imei}" *)
  | ERROR_api (imei : string) (message : pyval)
      (* "Erro na API para IMEI {imei}: {data.get('message')}" *)
  | ERROR_request (imei : string) (e : exn).
      (* "Erro na requisicao para IMEI {imei}: {e}" *)

(** ** State and exceptions together *)

Definition M (S A : Type) : Type := S → result A * S.

Definition ret {S A} (a : A) : M S A := λ s, (Ok a, s).
Definition raise {S A} (e : exn) : M S A := λ s, (Raise e, s).
Definition lift {S A} (r : result A) : M S A := λ s, (r, s).

Definition bind {S A B} (m : M S A) (k : A → M S B) : M S B :=
  λ s, match m s with
       | (Ok a, s') => k a s'
       | (Raise e, s') => (Raise e, s')
       end.

(** [try: m  except Exception as e: h e] *)
Definition try_except {S A} (m : M S A) (h : exn → M S A) : M S A :=
  λ s, match m s with
       | (Ok a, s') => (Ok a, s')
       | (Raise e, s') => h e s'
       end.

Notation "'do' x '<-' m ';' k" := (bind m (λ x, k))
  (at level 10, x name, m at level 100, k at level 200, only parsing).
Notation "m ';;' k" := (bind m (λ _, k))
  (at level 100, k at level 200, right associativity, only parsing).

(** ** IMEIView: what the controller calls on the view

    The widgets are kept as the data they hold: the records whose text
    [add_result] inserted into the result box, the progress bar's [maximum]
    and [value], the export data, and the message boxes shown, in order. *)

Inductive dialog :=
  | showerror (message : string)
  | showinfo (message : string).

Record view_state := View {
  result_text : list device_info;
  progress_maximum : Z;
  progress_value : Z;
  export_data : option (list device_info);
  dialogs : list dialog
}.

(** The methods, as functions on the data of the view.  They are taken to
    return normally. *)
Module IMEIView.

Definition show_error (message : string) (v : view_state) : view_state :=
  View (result_text v) (progress_maximum v) (progress_value v)
       (export_data v) (dialogs v ++ [showerror message]).

Definition show_info (message : string) (v : view_state) : view_state :=
  View (result_text v) (progress_maximum v) (progress_value v)
       (export_data v) (dialogs v ++ [showinfo message]).

Definition clear_results (v : view_state) : view_state :=
  View [] (progress_maximum v) (progress_value v)
       (export_data v) (dialogs v).

Definition add_result (d : device_info) (v : view_state) : view_state :=
  View (result_text v ++ [d]) (progress_maximum v) (progress_value v)
       (export_data v) (dialogs v).

Definition set_progress_max (max_value : Z) (v : view_state)
  : view_state :=
  View (result_text v) max_value (progress_value v)
       (export_data v) (dialogs v).

Definition update_progress (v : view_state) : view_state :=
  View (result_text v) (progress_maximum v) (progress_value v + 1)
       (export_data v) (dialogs v).

Definition set_export_data (data : list device_info) (v : view_state)
  : view_state :=
  show_info
    ("Consulta conclu" +:+ i_acute
     +:+ "da. Use o menu 'Arquivo' para exportar os resultados.")
    (View (result_text v) (progress_maximum v) (progress_value v)
          (Some data) (dialogs v)).

End IMEIView.

Section Model.

(** The transport: a state [T] of the network and service, and what a GET
    on a URL does in it. *)
Context {T : Type}.
Variable http_get : string → T → result response * T.

(** The module-level state: the dict [CACHE], the network, the URLs that
    [session.get] was called with, and the log. *)
Record world := World {
  CACHE : gmap string device_info;
  net : T;
  requests : list string;
  log : list log_record
}.

Definition logging (r : log_record) : M world unit :=
  λ w, (Ok tt, World (CACHE w) (net w) (requests w) (log w ++ [r])).

Definition cache_store (imei : string) (d : device_info) : M world unit :=
  λ w, (Ok tt, World (<[imei := d]> (CACHE w)) (net w) (requests w) (log w)).

(** [session.get(url)] *)
Definition session_get (url : string) : M world response :=
  λ w, let '(r, n) := http_get url (net w) in
       (r, World (CACHE w) n (requests w ++ [url]) (log w)).

(** ** IMEModel.get_device_info *)

(** The body of the [try]. *)
Definition request_device_info (imei url : string)
  : M world (option device_info) :=
  do response <- session_get url;
  lift (raise_for_status response) ;;
  do data <- lift (json response);
  do st <- lift (py_get data "status");
  do found <-
    (if eq_str st "Done"
     then do r <- lift (py_get data "result"); ret (truthy r)
     else ret false);
  if (found : bool) then
    do res <- lift (py_getitem data "result");
    do brand <- lift (py_get res "brand");
    do res' <- lift (py_getitem data "result");
    do model <- lift (py_get res' "model");
    let device_info := DeviceInfo imei brand model "Desconhecido" in
    cache_store imei device_info ;;
    ret (Some device_info)
  else
    do message <- lift (py_get data "message");
    logging (ERROR_api imei message) ;;
    ret None.

Definition get_device_info (imei api_key : string)
  : M world (option device_info) :=
  λ w,
  match CACHE w !! imei with
  | Some cached =>
      (logging (INFO_cache imei) ;; ret (Some cached)) w
  | None =>
      let url := API_URL +:+ "?API_KEY=" +:+ api_key +:+ "&imei=" +:+ imei in
      try_except (request_device_info imei url)
        (λ e, logging (ERROR_request imei e) ;; ret None) w
  end.

(** ** IMEController.process_imeis *)

(** What the coroutine works on: the module-level state, the view, and its
    local list [all_device_info]. *)
Record run := Run {
  model : world;
  view : view_state;
  all_device_info : list device_info
}.

Definition on_model {A} (m : M world A) : M run A :=
  λ a, let '(r, w) := m (model a) in (r, Run w (view a) (all_device_info a)).

Definition on_view (f : view_state → view_state) : M run unit :=
  λ a, (Ok tt, Run (model a) (f (view a)) (all_device_info a)).

Definition all_device_info_append (d : device_info) : M run unit :=
  λ a, (Ok tt, Run (model a) (view a) (all_device_info a ++ [d])).

(** [for digito in range(10): ... break ... else: ...], on the digits that
    are still to be tried. *)
Fixpoint for_digito (digitos : list nat) (imei api_key : string)
  : M run unit :=
  match digitos with
  | digito :: digitos' =>
      let imei_completo := imei +:+ str_digit digito in
      do device_info <- on_model (get_device_info imei_completo api_key);
      match device_info with
      | Some device_info =>
          all_device_info_append device_info ;;
          on_view (IMEIView.add_result device_info)
          (* break *)
      | None => for_digito digitos' imei api_key
      end
  | [] =>
      on_view (IMEIView.show_error
                 ("Nenhum IMEI v" +:+ a_acute
                  +:+ "lido encontrado para: " +:+ imei))
  end.

(** The [try] body of one identifier. *)
Definition try_imei (imei api_key : string) : M run unit :=
  (if negb (isdigit imei) || negb ((len imei =? 14) || (len imei =? 15))
   then raise (Exn ValueError ("IMEI inv" +:+ a_acute +:+ "lido."))
   else ret tt) ;;
  (if len imei =? 14 then
     for_digito (range 10) imei api_key
   else
     do device_info <- on_model (get_device_info imei api_key);
     match device_info with
     | Some device_info =>
         all_device_info_append device_info ;;
         on_view (IMEIView.add_result device_info)
     | None => ret tt
     end) ;;
  on_view IMEIView.update_progress.

(** The two [except] clauses, tried in order. *)
Definition except_imei (imei : string) (e : exn) : M run unit :=
  if is_ValueError e then
    on_view (IMEIView.show_error
               ("IMEI inv" +:+ a_acute +:+ "lido: " +:+ imei
                +:+ String (chr 10) "Motivo: " +:+ exn_str e))
  else
    on_view (IMEIView.show_error
               ("Erro ao processar IMEI " +:+ imei +:+ ": " +:+ exn_str e)).

(** The body of [for imei in imeis]. *)
Definition process_imei (imei api_key : string) : M run unit :=
  if str_truthy (strip imei) then
    try_except (try_imei imei api_key) (except_imei imei)
  else ret tt.

Fixpoint for_imei (imeis : list string) (api_key : string) : M run unit :=
  match imeis with
  | imei :: imeis' => process_imei imei api_key ;; for_imei imeis' api_key
  | [] => ret tt
  end.

(** [process_imeis], given what [view.get_api_key()] and [view.get_imeis()]
    returned. *)
Definition process_imeis (api_key : string) (imeis : list string)
  : M run unit :=
  if negb (str_truthy api_key) || match imeis with [] => true | _ => false end
  then
    on_view (IMEIView.show_error
      "Por favor, insira a chave da API e pelo menos um IMEI.")
  else
    on_view IMEIView.clear_results ;;
    on_view (IMEIView.set_progress_max (Z.of_nat (length imeis))) ;;
    (λ a, (Ok tt, Run (model a) (view a) [])) ;;
    for_imei imeis api_key ;;
    (λ a,
       match all_device_info a with
       | _ :: _ => on_view (IMEIView.set_export_data (all_device_info a)) a
       | [] => on_view (IMEIView.show_info "Nenhum resultado encontrado.") a
       end).

(** ** Notions used to state the properties *)

(** The URL that [get_device_info] requests for an identifier. *)
Definition url_of (api_key imei : string) : string :=
  API_URL +:+ "?API_KEY=" +:+ api_key +:+ "&imei=" +:+ imei.

(** The state after [get_device_info] has been called, in order, on each
    of the given (identifier, key) pairs. *)
Fixpoint after_calls (calls : list (string * string)) (w : world) : world :=
  match calls with
  | [] => w
  | (imei, api_key) :: calls' =>
      after_calls calls' (get_device_info imei api_key w).2
  end.

(** The candidates of a base for the given digits, as calls. *)
Definition candidates (digitos : list nat) (imei api_key : string)
  : list (string * string) :=
  map (λ d, (imei +:+ str_digit d, api_key)) digitos.

(** Candidate [k] fails when it is tried after the candidates [0..k-1]. *)
Definition candidate_fails (imei api_key : string) (w : world) (k : nat)
  : Prop :=
  (get_device_info (imei +:+ str_digit k) api_key
     (after_calls (candidates (range k) imei api_key) w)).1 = Ok None.

(** A failure of the transport or of the payload's shape: the request
    raises, the status is an error, the body does not parse, the payload is
    not an object, or it is "Done" with a result that is not an object. *)
Definition is_dict (v : pyval) : bool :=
  match v with
  | PDict _ => true
  | _ => false
  end.

Definition transport_failure (r : result response) : bool :=
  match r with
  | Raise _ => true
  | Ok resp =>
      (400 <=? status resp)
      || match json resp with
         | Raise _ => true
         | Ok (PDict d) =>
             eq_str (default PNone (dict_get d "status")) "Done"
             && truthy (default PNone (dict_get d "result"))
             && negb (is_dict (default PNone (dict_get d "result")))
         | Ok _ => true
         end
  end.

(** An answer of the service that is an object but not a found device:
    its status is not "Done" or its result is missing or empty.  Gives the
    service's message. *)
Definition service_refusal (r : result response) : option pyval :=
  match r with
  | Ok resp =>
      if 400 <=? status resp then None else
      match json resp with
      | Ok (PDict d) =>
          if eq_str (default PNone (dict_get d "status")) "Done"
             && truthy (default PNone (dict_get d "result"))
          then None
          else Some (default PNone (dict_get d "message"))
      | _ => None
      end
  | Raise _ => None
  end.

(** The identifiers of a batch that are not blank. *)
Definition non_blank (imei : string) : bool := str_truthy (strip imei).

(** The validation of [process_imeis]. *)
Definition valid_imei (imei : string) : bool :=
  isdigit imei && ((len imei =? 14) || (len imei =? 15)).

Definition invalid_message (imei : string) : string :=
  "IMEI inv" +:+ a_acute +:+ "lido: " +:+ imei
  +:+ String (chr 10) "Motivo: " +:+ "IMEI inv" +:+ a_acute +:+ "lido.".

Definition no_completion_message (imei : string) : string :=
  "Nenhum IMEI v" +:+ a_acute +:+ "lido encontrado para: " +:+ imei.

(** Each of the digits fails when the candidates are tried in turn. *)
Fixpoint all_fail (digitos : list nat) (imei api_key : string) (w : world)
  : Prop :=
  match digitos with
  | [] => True
  | d :: ds =>
      (get_device_info (imei +:+ str_digit d) api_key w).1 = Ok None
      ∧ all_fail ds imei api_key
          (get_device_info (imei +:+ str_digit d) api_key w).2
  end.

(** What the loop leaves behind for one identifier, from the state [a1]
    before it to the state [a2] after it: nothing for a blank line; an error
    box for an identifier that fails the validation.  For 14 digits: either
    some candidate [k] is the first whose lookup returns a record (the
    candidates before it, tried in turn, return none), and this record, and
    no other, is added to the list and to the result box; or all ten
    lookups return none, nothing is added, and the error box of an
    exhausted completion is shown.  For 15 digits: the record in the list
    and in the result box when the lookup returns one, and no record in the
    list otherwise. *)
Definition identifier_outcome (imei api_key : string) (a1 a2 : run) : Prop :=
  if negb (non_blank imei) then a2 = a1
  else if negb (valid_imei imei) then
    a2 = Run (model a1)
             (IMEIView.show_error (invalid_message imei) (view a1))
             (all_device_info a1)
  else if len imei =? 14 then
    (∃ k d,
        (k < 10)%nat
        ∧ all_fail (range k) imei api_key (model a1)
        ∧ get_device_info (imei +:+ str_digit k) api_key
            (after_calls (candidates (range k) imei api_key) (model a1))
          = (Ok (Some d), model a2)
        ∧ all_device_info a2 = all_device_info a1 ++ [d]
        ∧ result_text (view a2) = result_text (view a1) ++ [d]
        ∧ dialogs (view a2) = dialogs (view a1))
    ∨ (all_fail (range 10) imei api_key (model a1)
       ∧ model a2
         = after_calls (candidates (range 10) imei api_key) (model a1)
       ∧ all_device_info a2 = all_device_info a1
       ∧ result_text (view a2) = result_text (view a1)
       ∧ dialogs (view a2)
         = dialogs (view a1) ++ [showerror (no_completion_message imei)])
  else
    match get_device_info imei api_key (model a1) with
    | (Ok (Some d), w) =>
        model a2 = w
        ∧ all_device_info a2 = all_device_info a1 ++ [d]
        ∧ result_text (view a2) = result_text (view a1) ++ [d]
    | (_, w) =>
        model a2 = w
        ∧ all_device_info a2 = all_device_info a1
        ∧ result_text (view a2) = result_text (view a1)
    end.

End Model.

Arguments world : clear implicits.
Arguments run : clear implicits.

(** ** The check digit in the words of the specification

    Reverse the digits; double the digit at each odd position of the
    reversed sequence, less 9 when the double exceeds 9; sum; the check
    digit is (10 - (sum mod 10)) mod 10. *)

Definition spec_weight (i : nat) (d : Z) : Z :=
  if Nat.odd i then (if 9 <? 2 * d then 2 * d - 9 else 2 * d) else d.

Definition spec_sum (digits : list Z) : Z :=
  foldr Z.add 0 (imap spec_weight (rev digits)).

Definition spec_check_digit (digits : list Z) : Z :=
  (10 - (spec_sum digits mod 10)) mod 10.

Definition digit_value (c : ascii) : Z := ord c - 48.

Definition digit_values (s : string) : list Z := map digit_value (chars s).

(** A base identifier: exactly 14 decimal digits. *)
Definition is_base14 (s : string) : bool :=
  (len s =? 14) && forallb is_decimal (chars s).

(** ** A stub service for examples

    The network state counts the requests.  [found url n] tells whether the
    service finds a device for the request [url] when [n] requests were made
    before; it answers "Done" with a record then, and an error payload
    otherwise.  [stub_down] is a service that cannot be reached. *)

Definition stub_payload (ok : bool) : pyval :=
  if ok then
    PDict [("status", PStr "Done");
           ("result", PDict [("brand", PStr "Acme"); ("model", PStr "X1")])]
  else
    PDict [("status", PStr "Error"); ("message", PStr "IMEI not found")].

Definition stub_get (found : string → nat → bool)
  (url : string) (n : nat) : result response * nat :=
  (Ok (Response 200 (Ok (stub_payload (found url n)))), S n).

Definition stub_down (url : string) (n : nat) : result response * nat :=
  (Raise (Exn ClientError "Cannot connect to host"), S n).

Definition world0 : world nat := World ∅ 0%nat [] [].
Definition view0 : view_state := View [] 0 0 None [].
Definition run0 : run nat := Run world0 view0 [].

(** ** The key file: salvar_chave_api and carregar_chave_api

    The files are a map from paths to contents.  Opening a path that is not
    in the map for reading is [FileNotFoundError]; writing creates or
    replaces the file, with the text as given (no translation of LF, as on
    POSIX).  Other failures of the file system are not modelled. *)

Definition salvar_chave_api (chave : string) (fs : gmap string string)
  : gmap string string :=
  <["api_key.txt" := chave]> fs.





(** ** The input widgets of the view: get_api_key and get_imeis *)

(** Line boundaries of [str.splitlines()], below 256: LF, VT, FF, CR (and
    CR LF as one), FS, GS, RS and NEL. *)
Definition is_linebreak (c : ascii) : bool :=
  let n := ord c in
  ((10 <=? n) && (n <=? 13)) || ((28 <=? n) && (n <=? 30)) || (n =? 133).

(** [splitlines] with the characters of the current line, last first, in
    [line]. *)
Fixpoint splitlines_from (line cs : list ascii) : list string :=
  match cs with
  | [] =>
      match line with
      | [] => []
      | _ => [String.string_of_list_ascii (rev line)]
      end
  | c :: cs' =>
      if is_linebreak c then
        String.string_of_list_ascii (rev line)
        :: match cs' with
           | c' :: cs'' =>
               if (ord c =? 13) && (ord c' =? 10)
               then splitlines_from [] cs''
               else splitlines_from [] cs'
           | [] => splitlines_from [] cs'
           end
      else splitlines_from (c :: line) cs'
  end.

(** [s.splitlines()] *)
Definition splitlines (s : string) : list string :=
  splitlines_from [] (chars s).

(** What the two input widgets hold: the text of the key entry and what
    [imei_text.get("1.0", tk.END)] returns. *)
Record widgets := Widgets {
  api_key_entry : string;
  imei_text : string
}.

(** [get_api_key]: the trimmed entry, which is also saved. *)
Definition get_api_key (g : widgets) (fs : gmap string string)
  : string * gmap string string :=
  let chave := strip (api_key_entry g) in
  (chave, salvar_chave_api chave fs).

Definition get_imeis (g : widgets) : list string :=
  splitlines (strip (imei_text g)).

(** The text of a box that holds the given lines, one per line: the lines
    separated by newlines. *)
Fixpoint unlines (lines : list string) : string :=
  match lines with
  | [] => ""
  | [l] => l
  | l :: ls => l +:+ String (chr 10) (unlines ls)
  end.

(** A string without a line boundary. *)
Definition one_line (l : string) : bool :=
  forallb (λ c, negb (is_linebreak c)) (chars l).

(** ** Notions used to state further properties *)

(** An answer of the service with a found device: below 400, an object
    with status "Done" and a non-empty object as result.  Gives the
    result's brand and model, [None] for a missing one. *)
Definition service_found (r : result response) : option (pyval * pyval) :=
  match r with
  | Ok resp =>
      if 400 <=? status resp then None else
      match json resp with
      | Ok (PDict d) =>
          if eq_str (default PNone (dict_get d "status")) "Done" then
            match dict_get d "result" with
            | Some (PDict (item :: res)) =>
                Some (default PNone (dict_get (item :: res) "brand"),
                      default PNone (dict_get (item :: res) "model"))
            | _ => None
            end
          else None
      | _ => None
      end
  | Raise _ => None
  end.

(** The lines of a batch that pass the blank test and the validation. *)
Definition accepted (imei : string) : bool :=
  non_blank imei && valid_imei imei.


Section Turns.

Context {T : Type}.
Variable http_get : string → T → result response * T.

(** [process_imeis] as [start_processing] runs it: the key and the lines
    are read from the widgets first (which saves the key). *)
Definition start_processing (g : widgets) (fs : gmap string string)
    (a : run T) : (result unit * run T) * gmap string string :=
  let '(api_key, fs') := get_api_key g fs in
  (process_imeis http_get api_key (get_imeis g) a, fs').

(** Every record of the cache is stored under its own identifier. *)
Definition cache_ok (w : world T) : Prop :=
  ∀ k d, CACHE w !! k = Some d → IMEI d = k.

(** The six ways the turn of one line can go, from the state before it to
    the state after it. *)
Inductive turn (imei api_key : string) (a : run T) : run T → Prop :=
  | turn_blank :
      non_blank imei = false →
      turn imei api_key a a
  | turn_invalid :
      non_blank imei = true → valid_imei imei = false →
      turn imei api_key a
        (Run (model a)
             (IMEIView.show_error (invalid_message imei) (view a))
             (all_device_info a))
  | turn_completed (k : nat) (d : device_info) (w' : world T) :
      accepted imei = true → len imei = 14 → (k < 10)%nat →
      all_fail http_get (range k) imei api_key (model a) →
      get_device_info http_get (imei +:+ str_digit k) api_key
        (after_calls http_get (candidates (range k) imei api_key) (model a))
      = (Ok (Some d), w') →
      turn imei api_key a
        (Run w'
             (IMEIView.update_progress (IMEIView.add_result d (view a)))
             (all_device_info a ++ [d]))
  | turn_exhausted :
      accepted imei = true → len imei = 14 →
      all_fail http_get (range 10) imei api_key (model a) →
      turn imei api_key a
        (Run (after_calls http_get (candidates (range 10) imei api_key)
                (model a))
             (IMEIView.update_progress
                (IMEIView.show_error (no_completion_message imei) (view a)))
             (all_device_info a))
  | turn_found (d : device_info) (w' : world T) :
      accepted imei = true → len imei = 15 →
      get_device_info http_get imei api_key (model a) = (Ok (Some d), w') →
      turn imei api_key a
        (Run w'
             (IMEIView.update_progress (IMEIView.add_result d (view a)))
             (all_device_info a ++ [d]))
  | turn_not_found (w' : world T) :
      accepted imei = true → len imei = 15 →
      get_device_info http_get imei api_key (model a) = (Ok None, w') →
      turn imei api_key a
        (Run w' (IMEIView.update_progress (view a)) (all_device_info a)).

End Turns.

(** ** The Luhn check digit that the docstring names

    For a payload without its check digit the Luhn algorithm doubles the
    rightmost digit and every second digit from there: the even positions
    of the reversed payload. *)

Definition luhn_weight (i : nat) (d : Z) : Z := spec_weight (S i) d.

Definition luhn_check_digit (digits : list Z) : Z :=
  (10 - (foldr Z.add 0 (imap luhn_weight (rev digits)) mod 10)) mod 10.

(** ** The exception of a failed request

    The exception that the [try] body of [get_device_info] raises on an
    answer: the one of [session.get], the one of [raise_for_status], the
    one of [json()], or the [AttributeError] of a [get] on a payload or a
    result that is not an object. *)



(** ** The check digit on any Python string

    A [str] as the sequence of its code points, of any size.  [int] on one
    character gives its decimal value in the Unicode database of the
    interpreter, and raises [ValueError] when it has none; the database is
    the parameter [decimal].  (The text of the message leaves out the
    character.) *)

Module Unicode.

Section WithDatabase.

Variable decimal : Z → option Z.

Definition int_of_char (char : Z) : result Z :=
  match decimal char with
  | Some d => Ok d
  | None => Raise (Exn ValueError "invalid literal for int() with base 10")
  end.

Definition luhn_step (i : nat) (char : Z) (soma : Z) : result Z :=
  let* digito := int_of_char char in
  let digito :=
    if Z.of_nat i mod 2 =? 1 then
      let digito := digito * 2 in
      if digito >? 9 then digito - 9 else digito
    else digito in
  Ok (soma + digito).

Fixpoint luhn_loop (i : nat) (cs : list Z) (soma : Z) : result Z :=
  match cs with
  | [] => Ok soma
  | char :: cs' =>
      let* soma' := luhn_step i char soma in
      luhn_loop (S i) cs' soma'
  end.

Definition calcular_digito_verificacao (imei : list Z) : result Z :=
  if negb (Z.of_nat (length imei) =? 14) then
    Raise (Exn ValueError
             ("O IMEI deve ter exatamente 14 d" +:+ i_acute +:+ "gitos."))
  else
    let* soma := luhn_loop 0 (rev imei) 0 in
    Ok ((10 - (soma mod 10)) mod 10).

End WithDatabase.

(** A part of the database: the digits of ASCII and four other blocks of
    decimal digits (Arabic-Indic, Extended Arabic-Indic, Devanagari,
    Fullwidth). *)
Definition decimal_known (c : Z) : option Z :=
  if (48 <=? c) && (c <=? 57) then Some (c - 48)
  else if (1632 <=? c) && (c <=? 1641) then Some (c - 1632)
  else if (1776 <=? c) && (c <=? 1785) then Some (c - 1776)
  else if (2406 <=? c) && (c <=? 2415) then Some (c - 2406)
  else if (65296 <=? c) && (c <=? 65305) then Some (c - 65296)
  else None.

(** The code points of a string of the other embedding. *)
Definition code_points (s : string) : list Z := map ord (chars s).

End Unicode.

(** ** get_device_info with the exceptions that are not below Exception

    An awaited call completes, with a value or with an exception below
    [Exception], or is interrupted by a [BaseException] that is not one:
    the cancellation of the task, [KeyboardInterrupt], [SystemExit].
    [except Exception] catches the first kind only. *)

Module Interrupt.

Inductive base_exception :=
  | CancelledError
  | KeyboardInterrupt
  | SystemExit.

Inductive awaited (A : Type) :=
  | Completed (a : A)
  | Interrupted (b : base_exception).
Arguments Completed {A} a.
Arguments Interrupted {A} b.

Inductive outcome (A : Type) :=
  | Returns (a : A)
  | Raises (e : exn)
  | Propagates (b : base_exception).
Arguments Returns {A} a.
Arguments Raises {A} e.
Arguments Propagates {A} b.

(** A response whose [json()] is awaited. *)
Record response := Response {
  status : Z;
  json : awaited (result pyval)
}.

Definition M (S A : Type) : Type := S → outcome A * S.

Definition ret {S A} (a : A) : M S A := λ s, (Returns a, s).

Definition bind {S A B} (m : M S A) (k : A → M S B) : M S B :=
  λ s, match m s with
       | (Returns a, s') => k a s'
       | (Raises e, s') => (Raises e, s')
       | (Propagates b, s') => (Propagates b, s')
       end.

(** A step that cannot be interrupted. *)
Definition lift {S A} (r : result A) : M S A :=
  λ s, (match r with Ok a => Returns a | Raise e => Raises e end, s).

(** [await] *)
Definition await {S A} (r : awaited (result A)) : M S A :=
  λ s, (match r with
        | Completed (Ok a) => Returns a
        | Completed (Raise e) => Raises e
        | Interrupted b => Propagates b
        end, s).

(** [try: m  except Exception as e: h e] *)
Definition try_except_Exception {S A} (m : M S A) (h : exn → M S A)
  : M S A :=
  λ s, match m s with
       | (Returns a, s') => (Returns a, s')
       | (Raises e, s') => h e s'
       | (Propagates b, s') => (Propagates b, s')
       end.

Section Model.

Context {T : Type}.
Variable http_get : string → T → awaited (result response) * T.

Definition logging (r : log_record) : M (world T) unit :=
  λ w, (Returns tt, World (CACHE w) (net w) (requests w) (log w ++ [r])).

Definition cache_store (imei : string) (d : device_info)
  : M (world T) unit :=
  λ w, (Returns tt,
        World (<[imei := d]> (CACHE w)) (net w) (requests w) (log w)).

(** [await session.get(url)] *)
Definition session_get (url : string) : M (world T) response :=
  λ w, let '(r, n) := http_get url (net w) in
       await r (World (CACHE w) n (requests w ++ [url]) (log w)).

Definition raise_for_status (r : response) : result unit :=
  if 400 <=? status r then
    Raise (Exn ClientError "ClientResponseError")
  else Ok tt.

(** The body of the [try]. *)
Definition request_device_info (imei url : string)
  : M (world T) (option device_info) :=
  bind (session_get url) (λ response,
  bind (lift (raise_for_status response)) (λ _,
  bind (await (json response)) (λ data,
  bind (lift (py_get data "status")) (λ st,
  bind (if eq_str st "Done"
        then bind (lift (py_get data "result")) (λ r, ret (truthy r))
        else ret false) (λ found : bool,
  if found then
    bind (lift (py_getitem data "result")) (λ res,
    bind (lift (py_get res "brand")) (λ brand,
    bind (lift (py_getitem data "result")) (λ res',
    bind (lift (py_get res' "model")) (λ model,
    let device_info := DeviceInfo imei brand model "Desconhecido" in
    bind (cache_store imei device_info) (λ _,
    ret (Some device_info))))))
  else
    bind (lift (py_get data "message")) (λ message,
    bind (logging (ERROR_api imei message)) (λ _,
    ret None))))))).

Definition get_device_info (imei api_key : string)
  : M (world T) (option device_info) :=
  λ w,
  match CACHE w !! imei with
  | Some cached =>
      bind (logging (INFO_cache imei)) (λ _, ret (Some cached)) w
  | None =>
      let url := API_URL +:+ "?API_KEY=" +:+ api_key +:+ "&imei=" +:+ imei in
      try_except_Exception (request_device_info imei url)
        (λ e, bind (logging (ERROR_request imei e)) (λ _, ret None)) w
  end.

(** The [BaseException] that interrupts the lookup of an answer, if any:
    the one of [session.get], or the one of [json()] when the status lets
    the body get there. *)
Definition interruption (r : awaited (result response))
  : option base_exception :=
  match r with
  | Interrupted b => Some b
  | Completed (Ok resp) =>
      if 400 <=? status resp then None else
      match json resp with
      | Interrupted b => Some b
      | Completed _ => None
      end
  | Completed (Raise _) => None
  end.

End Model.

(** A transport whose request is cancelled. *)
Definition stub_cancelled (url : string) (n : nat)
  : awaited (result response) * nat :=
  (Interrupted CancelledError, S n).

End Interrupt.

(** The transport of the first embedding, seen as one whose awaited calls
    all complete. *)
Definition completing {T : Type}
    (http_get : string → T → result response * T)
    (url : string) (n : T)
  : Interrupt.awaited (result Interrupt.response) * T :=
  let '(r, n') := http_get url n in
  (Interrupt.Completed
     match r with
     | Ok resp =>
         Ok (Interrupt.Response (status resp)
               (Interrupt.Completed (json resp)))
     | Raise e => Raise e
     end, n').

(** * The string functions on examples *)

Example strip_example :
  strip (String (chr 9) "  12 3 " +:+ String (chr 10) "") = "12 3".
Proof. reflexivity. Qed.

Example isdigit_examples :
  isdigit "0123456789" = true ∧ isdigit "" = false
  ∧ isdigit "12a" = false ∧ isdigit " 12" = false.
Proof. repeat split. Qed.

Example str_digit_examples :
  map str_digit (range 10)
  = ["0"; "1"; "2"; "3"; "4"; "5"; "6"; "7"; "8"; "9"].
Proof. reflexivity. Qed.

(** * Properties of the check digit *)

Lemma odd_position (i : nat) : (Z.of_nat i mod 2 =? 1) = Nat.odd i.
Proof.
  rewrite <- Nat.negb_even.
  destruct (Nat.even i) eqn:E; simpl.
  - apply Nat.even_spec in E as [k ->].
    apply Z.eqb_neq. rewrite Nat2Z.inj_mul, Z.mul_comm, Z_mod_mult. lia.
  - apply Z.eqb_eq.
    assert (Nat.odd i = true) as O by (rewrite <- Nat.negb_even, E; done).
    apply Nat.odd_spec in O as [k ->].
    rewrite Nat2Z.inj_add, Nat2Z.inj_mul, Z.add_comm, Z.mul_comm.
    rewrite Z_mod_plus_full. reflexivity.
Qed.

Lemma luhn_step_decimal (i : nat) (c : ascii) (soma : Z) :
  is_decimal c = true →
  luhn_step i c soma = Ok (soma + spec_weight i (digit_value c)).
Proof.
  intros D. unfold luhn_step, int_of_char, spec_weight, digit_value.
  rewrite D. simpl. rewrite odd_position.
  destruct (Nat.odd i); [|done].
  rewrite Z.gtb_ltb, (Z.mul_comm _ 2). done.
Qed.

Lemma luhn_step_not_decimal (i : nat) (c : ascii) (soma : Z) :
  is_decimal c = false →
  ∃ msg, luhn_step i c soma = Raise (Exn ValueError msg).
Proof.
  intros D. unfold luhn_step, int_of_char. rewrite D. simpl. eauto.
Qed.

Lemma luhn_loop_decimal (cs : list ascii) :
  ∀ (i : nat) (soma : Z),
    forallb is_decimal cs = true →
    luhn_loop i cs soma
    = Ok (soma + foldr Z.add 0
                   (imap (λ j, spec_weight (i + j)) (map digit_value cs))).
Proof.
  induction cs as [|c cs IH]; intros i soma D; simpl in *.
  - f_equal. lia.
  - apply andb_prop in D as [Dc Dcs].
    rewrite luhn_step_decimal by done. simpl.
    rewrite IH by done. f_equal.
    rewrite Nat.add_0_r, Z.add_assoc. do 2 f_equal.
    apply imap_ext. intros j x _. simpl. f_equal. lia.
Qed.

Lemma luhn_loop_not_decimal (cs : list ascii) :
  ∀ (i : nat) (soma : Z),
    forallb is_decimal cs = false →
    ∃ msg, luhn_loop i cs soma = Raise (Exn ValueError msg).
Proof.
  induction cs as [|c cs IH]; intros i soma D; simpl in *; [done|].
  destruct (is_decimal c) eqn:Dc; simpl in D.
  - rewrite luhn_step_decimal by done. simpl. by apply IH.
  - destruct (luhn_step_not_decimal i c soma Dc) as [msg ->]. simpl. eauto.
Qed.

Lemma forallb_rev {A} (p : A → bool) (l : list A) :
  forallb p (rev l) = forallb p l.
Proof.
  induction l as [|x l IH]; simpl; [done|].
  rewrite forallb_app, IH. simpl. rewrite andb_true_r. apply andb_comm.
Qed.

Lemma check_digit_range (soma : Z) : 0 ≤ (10 - soma mod 10) mod 10 ≤ 9.
Proof.
  pose proof (Z.mod_pos_bound (10 - soma mod 10) 10 ltac:(lia)). lia.
Qed.

Lemma calcular_base14 (s : string) :
  is_base14 s = true →
  calcular_digito_verificacao s = Ok (spec_check_digit (digit_values s)).
Proof.
  intros B. apply andb_prop in B as [L D].
  unfold calcular_digito_verificacao. rewrite L. simpl.
  rewrite luhn_loop_decimal by (by rewrite forallb_rev).
  simpl. unfold spec_check_digit, spec_sum, digit_values.
  by rewrite map_rev.
Qed.

(** C2: on exactly 14 decimal digits the function returns the check digit
    of the specification's procedure (reverse, double the odd positions of
    the reversed sequence less 9 above 9, sum, (10 - sum mod 10) mod 10); the
    result is a single digit 0..9, and it is a function of the input alone. *)
Theorem C2_check_digit_is_luhn (s : string) :
  is_base14 s = true →
  calcular_digito_verificacao s = Ok (spec_check_digit (digit_values s))
  ∧ 0 ≤ spec_check_digit (digit_values s) ≤ 9
  ∧ ∀ r1 r2, calcular_digito_verificacao s = r1 →
             calcular_digito_verificacao s = r2 → r1 = r2.
Proof.
  intros B. split; [by apply calcular_base14|]. split.
  - apply check_digit_range.
  - congruence.
Qed.

Lemma C2_check_digit_is_luhn_witness :
  is_base14 "49015420323751" = true
  ∧ calcular_digito_verificacao "49015420323751"
    = Ok (spec_check_digit (digit_values "49015420323751")).
Proof.
  split; [reflexivity|].
  exact (proj1 (C2_check_digit_is_luhn "49015420323751" eq_refl)).
Defined.

(** C4 on the code: for both bases of the test vectors the function
    returns 2, where the Luhn algorithm that its docstring names gives 0 and
    1; for the base of the IMEI 490154203237518 it returns 0, the Luhn digit
    being 8.  The loop doubles the odd positions of the reversed payload,
    the algorithm the even ones. *)
Theorem C4_test_vectors_against_luhn :
  calcular_digito_verificacao "35290986021057" = Ok 2
  ∧ luhn_check_digit (digit_values "35290986021057") = 0
  ∧ calcular_digito_verificacao "86231411165679" = Ok 2
  ∧ luhn_check_digit (digit_values "86231411165679") = 1
  ∧ calcular_digito_verificacao "49015420323751" = Ok 0
  ∧ luhn_check_digit (digit_values "49015420323751") = 8.
Proof. repeat split. Qed.

(** ** The check digit on any string *)

Lemma elem_of_rev {A} (x : A) (l : list A) : x ∈ rev l ↔ x ∈ l.
Proof. rewrite !list_elem_of_In. symmetry. apply in_rev. Qed.

Section UnicodeFacts.

Variable decimal : Z → option Z.

(** Below 256 the decimal digits are '0'..'9'. *)
Hypothesis decimal_latin1 :
  ∀ c, 0 ≤ c < 256 →
       decimal c = if (48 <=? c) && (c <=? 57) then Some (c - 48) else None.

Lemma unicode_luhn_loop_digits (cs : list Z) :
  ∀ (i : nat) (soma : Z),
    (∀ c, c ∈ cs → is_Some (decimal c)) →
    ∃ soma', Unicode.luhn_loop decimal i cs soma = Ok soma'.
Proof.
  induction cs as [|c cs IH]; intros i soma H; simpl; [eauto|].
  destruct (H c) as [d Hd]; [by left|].
  unfold Unicode.luhn_step, Unicode.int_of_char. rewrite Hd. simpl.
  apply IH. intros c' Hc'. apply H. by right.
Qed.

Lemma unicode_luhn_loop_other (cs : list Z) :
  ∀ (i : nat) (soma : Z) (c : Z),
    c ∈ cs → decimal c = None →
    ∃ msg, Unicode.luhn_loop decimal i cs soma = Raise (Exn ValueError msg).
Proof.
  induction cs as [|x cs IH]; intros i soma c Hc Hn; [by inversion Hc|].
  simpl. unfold Unicode.luhn_step, Unicode.int_of_char.
  destruct (decimal x) as [d|] eqn:Hx; simpl; [|eauto].
  apply (IH _ _ c); [|done].
  apply elem_of_cons in Hc as [->|Hc]; [congruence|done].
Qed.

(** C8, as the code has it: the function raises [ValueError] (the code's
    form of the length error) whenever the input has not exactly 14
    characters or has a character that is not a decimal digit of the
    Unicode database, as the "A" of "1234567890123A"; and it returns a
    digit from 0 to 9 on every input of exactly 14 such decimal digits,
    those of ASCII or of any other script. *)
Theorem C8_check_digit_domain (imei : list Z) :
  (length imei ≠ 14%nat ∨ (∃ c, c ∈ imei ∧ decimal c = None) →
   ∃ msg, Unicode.calcular_digito_verificacao decimal imei
          = Raise (Exn ValueError msg))
  ∧ (length imei = 14%nat ∧ (∀ c, c ∈ imei → is_Some (decimal c)) →
     ∃ d, Unicode.calcular_digito_verificacao decimal imei = Ok d
          ∧ 0 ≤ d ≤ 9)
  ∧ ∃ msg, Unicode.calcular_digito_verificacao decimal
             (Unicode.code_points "1234567890123A")
           = Raise (Exn ValueError msg).
Proof.
  assert (∀ s, (∃ c, c ∈ s ∧ decimal c = None) →
               length s = 14%nat →
               ∃ msg, Unicode.calcular_digito_verificacao decimal s
                      = Raise (Exn ValueError msg)) as Hother.
  { intros s (c & Hc & Hn) L. unfold Unicode.calcular_digito_verificacao.
    rewrite L. simpl.
    destruct (unicode_luhn_loop_other (rev s) 0 0 c) as [msg ->];
      [by apply elem_of_rev|done|]. simpl. eauto. }
  split; [|split].
  - intros H. destruct (decide (length imei = 14%nat)) as [L|L].
    + destruct H as [H|H]; [done|]. by apply Hother.
    + unfold Unicode.calcular_digito_verificacao.
      destruct (Z.of_nat (length imei) =? 14) eqn:E; simpl; [|eauto].
      apply Z.eqb_eq in E. lia.
  - intros [L H]. unfold Unicode.calcular_digito_verificacao.
    rewrite L. simpl.
    destruct (unicode_luhn_loop_digits (rev imei) 0 0) as [soma ->].
    { intros c Hc. apply H. by apply elem_of_rev. }
    simpl. eexists. split; [reflexivity|]. apply check_digit_range.
  - apply Hother; [|reflexivity]. exists 65. split.
    + vm_compute. repeat constructor.
    + by rewrite decimal_latin1.
Qed.

(** On the strings of the first embedding the two embeddings agree: the
    same digit, or [ValueError] in both. *)
Lemma calcular_latin1_agrees (s : string) :
  match calcular_digito_verificacao s,
        Unicode.calcular_digito_verificacao decimal (Unicode.code_points s)
  with
  | Ok d, Ok d' => d = d'
  | Raise e, Raise e' =>
      exn_class_of e = ValueError ∧ exn_class_of e' = ValueError
  | _, _ => False
  end.
Proof.
  assert (∀ c : ascii, decimal (ord c)
                       = if is_decimal c then Some (ord c - 48) else None)
    as Hd.
  { intros c. rewrite decimal_latin1; [done|]. unfold ord.
    pose proof (N_ascii_bounded c). lia. }
  assert (∀ cs i soma,
            match luhn_loop i cs soma,
                  Unicode.luhn_loop decimal i (map ord cs) soma with
            | Ok d, Ok d' => d = d'
            | Raise e, Raise e' =>
                exn_class_of e = ValueError ∧ exn_class_of e' = ValueError
            | _, _ => False
            end) as Hloop.
  { induction cs as [|c cs IH]; intros i soma; simpl; [done|].
    unfold luhn_step, Unicode.luhn_step, int_of_char, Unicode.int_of_char.
    rewrite Hd. destruct (is_decimal c); simpl; [apply IH|done]. }
  unfold calcular_digito_verificacao, Unicode.calcular_digito_verificacao,
    Unicode.code_points, len.
  rewrite length_map.
  replace (length (chars s)) with (String.length s).
  2:{ clear. unfold chars. induction s; simpl; [done|]. by f_equal. }
  destruct (Z.of_nat (String.length s) =? 14); simpl; [|done].
  rewrite <- map_rev.
  specialize (Hloop (rev (chars s)) 0%nat 0).
  destruct (luhn_loop 0 (rev (chars s)) 0),
    (Unicode.luhn_loop decimal 0 (map ord (rev (chars s))) 0);
    simpl; try done. by subst.
Qed.

End UnicodeFacts.

Lemma decimal_known_latin1 (c : Z) :
  0 ≤ c < 256 →
  Unicode.decimal_known c
  = if (48 <=? c) && (c <=? 57) then Some (c - 48) else None.
Proof.
  intros H. unfold Unicode.decimal_known.
  destruct ((48 <=? c) && (c <=? 57)); [done|].
  repeat (destruct (_ && _) eqn:?;
          [apply andb_prop in Heqb as [?%Z.leb_le ?%Z.leb_le]; lia
          |clear Heqb]).
  done.
Qed.

(** C8 at work on a short string, on a string with a letter, on fourteen
    ASCII digits and on fourteen Devanagari digits. *)
Lemma C8_check_digit_domain_witness :
  (∃ msg, Unicode.calcular_digito_verificacao Unicode.decimal_known
            (Unicode.code_points "123")
          = Raise (Exn ValueError msg))
  ∧ (∃ msg, Unicode.calcular_digito_verificacao Unicode.decimal_known
              (Unicode.code_points "12345678901 34")
            = Raise (Exn ValueError msg))
  ∧ (∃ d, Unicode.calcular_digito_verificacao Unicode.decimal_known
            (Unicode.code_points "12345678901234") = Ok d ∧ 0 ≤ d ≤ 9)
  ∧ (∃ d, Unicode.calcular_digito_verificacao Unicode.decimal_known
            (replicate 14 2409) = Ok d ∧ 0 ≤ d ≤ 9).
Proof.
  pose proof (C8_check_digit_domain Unicode.decimal_known
                decimal_known_latin1) as H.
  split; [|split; [|split]].
  - destruct (H (Unicode.code_points "123")) as (H1 & _ & _).
    apply H1. left. vm_compute. discriminate.
  - destruct (H (Unicode.code_points "12345678901 34")) as (H1 & _ & _).
    apply H1. right. exists 32. split; [|reflexivity].
    vm_compute. repeat constructor.
  - destruct (H (Unicode.code_points "12345678901234")) as (_ & H2 & _).
    apply H2. split; [reflexivity|].
    intros c Hc. vm_compute in Hc.
    repeat (apply elem_of_cons in Hc as [->|Hc]; [by eexists|]).
    by inversion Hc.
  - destruct (H (replicate 14 2409)) as (_ & H2 & _).
    apply H2. split; [reflexivity|].
    intros c Hc%elem_of_replicate. destruct Hc as [-> _]. by eexists.
Defined.

(** C8, as stated, fails: fourteen Arabic-Indic digits three (U+0663) are
    fourteen characters outside '0'..'9', and the function returns 7 on
    them. *)
Lemma C8_other_digits_counterexample :
  let imei := replicate 14 1635 in
  length imei = 14%nat
  ∧ Forall (λ c, ¬ (48 ≤ c ≤ 57)) imei
  ∧ Unicode.calcular_digito_verificacao Unicode.decimal_known imei = Ok 7.
Proof.
  split; [reflexivity|]. split; [|reflexivity].
  apply Forall_replicate. lia.
Qed.

(** * Properties of the lookup *)

Ltac unfold_M :=
  unfold bind, ret, raise, lift, try_except in *.

Section Lookup.

Context {T : Type}.
Variable http_get : string → T → result response * T.

(** A hit: the cached record, a log line, nothing else. *)
Lemma get_device_info_hit (imei api_key : string) (w : world T)
    (cached : device_info) :
  CACHE w !! imei = Some cached →
  get_device_info http_get imei api_key w
  = (Ok (Some cached),
     World (CACHE w) (net w) (requests w) (log w ++ [INFO_cache imei])).
Proof.
  intros H. unfold get_device_info. rewrite H. reflexivity.
Qed.

(** A miss: one request; then either a record is built and stored under
    the identifier, or nothing is returned and one line is logged. *)
Lemma get_device_info_miss (imei api_key : string) (w : world T) :
  CACHE w !! imei = None →
  let n' := (http_get (url_of api_key imei) (net w)).2 in
  let rs := requests w ++ [url_of api_key imei] in
  (∃ brand model,
     let d := DeviceInfo imei brand model "Desconhecido" in
     get_device_info http_get imei api_key w
     = (Ok (Some d), World (<[imei := d]> (CACHE w)) n' rs (log w)))
  ∨ (∃ l,
       get_device_info http_get imei api_key w
       = (Ok None, World (CACHE w) n' rs (log w ++ [l]))).
Proof.
  intros H. unfold get_device_info. rewrite H.
  unfold url_of, request_device_info, session_get. unfold_M.
  destruct (http_get _ (net w)) as [[resp|e] n']; simpl; [|eauto].
  unfold raise_for_status.
  destruct (400 <=? status resp); simpl; [eauto|].
  destruct (json resp) as [data|e]; simpl; [|eauto].
  destruct (py_get data "status") as [st|e] eqn:Est; simpl; [|eauto].
  destruct (eq_str st "Done"); simpl.
  - destruct (py_get data "result") as [r|e] eqn:Er; simpl; [|eauto].
    destruct (truthy r); simpl.
    + destruct (py_getitem data "result") as [res|e]; simpl; [|eauto].
      destruct (py_get res "brand") as [brand|e]; simpl; [|eauto].
      destruct (py_get res "model") as [model|e]; simpl; [|eauto].
      left. eauto.
    + destruct (py_get data "message") as [m|e]; simpl; eauto.
  - destruct (py_get data "message") as [m|e]; simpl; eauto.
Qed.

(** The two ways to a record. *)
Lemma get_device_info_some (imei api_key : string) (w w' : world T)
    (d : device_info) :
  get_device_info http_get imei api_key w = (Ok (Some d), w') →
  (CACHE w !! imei = Some d
   ∧ w' = World (CACHE w) (net w) (requests w) (log w ++ [INFO_cache imei]))
  ∨ (CACHE w !! imei = None
     ∧ w' = World (<[imei := d]> (CACHE w))
                  (http_get (url_of api_key imei) (net w)).2
                  (requests w ++ [url_of api_key imei]) (log w)).
Proof.
  intros E. destruct (CACHE w !! imei) as [cached|] eqn:H.
  - rewrite (get_device_info_hit _ _ _ _ H) in E.
    injection E as <- <-. by left.
  - destruct (get_device_info_miss imei api_key w H)
      as [(brand & model & E')|(l & E')]; rewrite E' in E; [|done].
    injection E as <- <-. by right.
Qed.

(** A call that returns nothing missed the cache, made one request and
    left the cache as it was. *)
Lemma get_device_info_none (imei api_key : string) (w : world T) :
  (get_device_info http_get imei api_key w).1 = Ok None →
  CACHE w !! imei = None
  ∧ ∃ l, get_device_info http_get imei api_key w
         = (Ok None,
            World (CACHE w) (http_get (url_of api_key imei) (net w)).2
                  (requests w ++ [url_of api_key imei]) (log w ++ [l])).
Proof.
  intros E. destruct (CACHE w !! imei) as [cached|] eqn:H.
  - by rewrite (get_device_info_hit _ _ _ _ H) in E.
  - split; [done|].
    destruct (get_device_info_miss imei api_key w H)
      as [(brand & model & E')|(l & E')]; rewrite E' in E; [done|eauto].
Qed.

(** Entries of the cache stay, whatever is looked up. *)
Lemma get_device_info_keeps (imei api_key : string) (w : world T)
    (i : string) (d : device_info) :
  CACHE w !! i = Some d →
  CACHE (get_device_info http_get imei api_key w).2 !! i = Some d.
Proof.
  intros Hi. destruct (CACHE w !! imei) as [cached|] eqn:H.
  - by rewrite (get_device_info_hit _ _ _ _ H).
  - destruct (get_device_info_miss imei api_key w H)
      as [(brand & model & ->)|(l & ->)]; simpl; [|done].
    rewrite lookup_insert_ne; [done|]. intros ->. congruence.
Qed.

Lemma after_calls_keeps (calls : list (string * string)) :
  ∀ (w : world T) (i : string) (d : device_info),
    CACHE w !! i = Some d →
    CACHE (after_calls http_get calls w) !! i = Some d.
Proof.
  induction calls as [|[imei api_key] calls IH]; intros w i d H; simpl.
  - done.
  - apply IH. by apply get_device_info_keeps.
Qed.

Lemma after_calls_app (l1 l2 : list (string * string)) :
  ∀ w : world T,
    after_calls http_get (l1 ++ l2) w
    = after_calls http_get l2 (after_calls http_get l1 w).
Proof.
  induction l1 as [|[imei api_key] l1 IH]; intros w; simpl; [done|].
  apply IH.
Qed.

Lemma get_device_info_returns (imei api_key : string) (w : world T) :
  ∃ (r : option device_info) (w' : world T),
    get_device_info http_get imei api_key w = (Ok r, w').
Proof.
  destruct (CACHE w !! imei) as [cached|] eqn:H.
  - rewrite (get_device_info_hit _ _ _ _ H). eauto.
  - destruct (get_device_info_miss imei api_key w H)
      as [(brand & model & ->)|(l & ->)]; eauto.
Qed.

(** C5: a hit returns the cached record without a request (the network
    and the list of requests are as before).  A call that returns a record
    leaves it in the cache under the identifier; when it missed, that is one
    insertion after one request.  From then on, whatever else is looked up
    in between, a call with the same identifier returns the same record and
    makes no request. *)
Theorem C5_cache_short_circuits (imei api_key : string) (w : world T) :
  (∀ cached, CACHE w !! imei = Some cached →
     ∃ w', get_device_info http_get imei api_key w = (Ok (Some cached), w')
           ∧ requests w' = requests w ∧ net w' = net w
           ∧ CACHE w' = CACHE w)
  ∧ (∀ d w1, get_device_info http_get imei api_key w = (Ok (Some d), w1) →
       CACHE w1 !! imei = Some d
       ∧ (CACHE w !! imei = None →
          CACHE w1 = <[imei := d]> (CACHE w)
          ∧ requests w1 = requests w ++ [url_of api_key imei])
       ∧ ∀ calls api_key',
           let w2 := after_calls http_get calls w1 in
           ∃ w3, get_device_info http_get imei api_key' w2
                 = (Ok (Some d), w3)
                 ∧ requests w3 = requests w2 ∧ net w3 = net w2
                 ∧ CACHE w3 = CACHE w2).
Proof.
  split.
  - intros cached H. rewrite (get_device_info_hit _ _ _ _ H). eauto.
  - intros d w1 E.
    assert (CACHE w1 !! imei = Some d) as H1.
    { destruct (get_device_info_some _ _ _ _ _ E) as [[H ->]|[H ->]]; simpl.
      - done.
      - apply lookup_insert_eq. }
    split; [done|]. split.
    + intros Hm.
      destruct (get_device_info_some _ _ _ _ _ E) as [[H ->]|[H ->]];
        [congruence|done].
    + intros calls api_key' w2.
      pose proof (after_calls_keeps calls w1 imei d H1) as H2.
      rewrite (get_device_info_hit _ _ _ _ H2). eauto.
Qed.


End Lookup.

(** ** The lookup and the exceptions that are not below Exception *)

Section InterruptFacts.

Context {T : Type}.
Variable http_get :
  string → T → Interrupt.awaited (result Interrupt.response) * T.

(** C10, as the code has it: no exception below [Exception] leaves
    [get_device_info], whatever the identifier, the key, the state and the
    transport: each is caught by [except Exception], and the function
    returns a record or [None].  What does leave it is a [BaseException]
    that is not an [Exception] (the cancellation of the task,
    [KeyboardInterrupt], [SystemExit]) when it interrupts one of the two
    awaited calls on a miss: it is not caught and reaches the caller.  When
    no such interruption happens the function returns. *)
Theorem C10_only_base_exceptions_escape
    (imei api_key : string) (w : world T) :
  let out := (Interrupt.get_device_info http_get imei api_key w).1 in
  let r := (http_get (url_of api_key imei) (net w)).1 in
  (∀ e, out ≠ Interrupt.Raises e)
  ∧ (∀ b, out = Interrupt.Propagates b
          ↔ CACHE w !! imei = None ∧ Interrupt.interruption r = Some b)
  ∧ ((CACHE w !! imei = None → Interrupt.interruption r = None) →
     ∃ res, out = Interrupt.Returns res).
Proof.
  simpl. unfold Interrupt.get_device_info.
  destruct (CACHE w !! imei) as [cached|] eqn:H.
  { simpl. split; [done|]. split; [|eauto]. intros b. split; [done|].
    by intros [? _]. }
  unfold url_of, Interrupt.try_except_Exception,
    Interrupt.request_device_info, Interrupt.session_get, Interrupt.bind,
    Interrupt.await, Interrupt.lift, Interrupt.ret,
    Interrupt.raise_for_status, Interrupt.logging, Interrupt.cache_store.
  destruct (http_get _ (net w)) as [[[resp|e]|b0] n']; simpl.
  - destruct (400 <=? Interrupt.status resp); simpl.
    { split; [done|]. split; [|eauto]. intros b. split; [done|].
      by intros [_ ?]. }
    destruct (Interrupt.json resp) as [[data|e]|b0]; simpl.
    + assert (∀ x : Interrupt.outcome (option device_info),
                (∃ res, x = Interrupt.Returns res) →
                (∀ e, x ≠ Interrupt.Raises e)
                ∧ (∀ b, x = Interrupt.Propagates b
                        ↔ @None device_info = None
                          ∧ @None Interrupt.base_exception = Some b)
                ∧ ((@None device_info = None
                    → @None Interrupt.base_exception = None)
                   → ∃ res, x = Interrupt.Returns res)) as Hret.
      { intros x [res ->]. split; [done|]. split; [|eauto].
        intros b. split; [done|]. by intros [_ ?]. }
      destruct (py_get data "status") as [st|e]; simpl;
        [|apply Hret; eauto].
      destruct (eq_str st "Done"); simpl.
      * destruct (py_get data "result") as [res|e]; simpl;
          [|apply Hret; eauto].
        destruct (truthy res); simpl.
        -- destruct (py_getitem data "result") as [res'|e]; simpl;
             [|apply Hret; eauto].
           destruct (py_get res' "brand") as [brand|e]; simpl;
             [|apply Hret; eauto].
           destruct (py_get res' "model") as [model|e]; simpl;
             apply Hret; eauto.
        -- destruct (py_get data "message") as [m|e]; simpl;
             apply Hret; eauto.
      * destruct (py_get data "message") as [m|e]; simpl;
          apply Hret; eauto.
    + split; [done|]. split; [|eauto]. intros b. split; [done|].
      by intros [_ ?].
    + split; [done|]. split.
      * intros b. split; [by intros [= <-]|by intros [_ [= <-]]].
      * intros HI. by specialize (HI eq_refl).
  - split; [done|]. split; [|eauto]. intros b. split; [done|].
    by intros [_ ?].
  - split; [done|]. split.
    + intros b. split; [by intros [= <-]|by intros [_ [= <-]]].
    + intros HI. by specialize (HI eq_refl).
Qed.

End InterruptFacts.

(** When every awaited call completes, this embedding is the first one. *)
Lemma get_device_info_completing {T : Type}
    (http_get : string → T → result response * T)
    (imei api_key : string) (w : world T) :
  Interrupt.get_device_info (completing http_get) imei api_key w
  = match get_device_info http_get imei api_key w with
    | (Ok r, w') => (Interrupt.Returns r, w')
    | (Raise e, w') => (Interrupt.Raises e, w')
    end.
Proof.
  unfold Interrupt.get_device_info, get_device_info.
  destruct (CACHE w !! imei) as [cached|]; [reflexivity|].
  unfold Interrupt.try_except_Exception, Interrupt.request_device_info,
    Interrupt.session_get, Interrupt.bind, Interrupt.await, Interrupt.lift,
    Interrupt.ret, Interrupt.raise_for_status, Interrupt.logging,
    Interrupt.cache_store, completing.
  unfold request_device_info, session_get, raise_for_status, logging,
    cache_store. unfold_M.
  destruct (http_get _ (net w)) as [[resp|e] n']; simpl; [|done].
  destruct (400 <=? status resp); simpl; [done|].
  destruct (json resp) as [data|e]; simpl; [|done].
  destruct (py_get data "status") as [st|e]; simpl; [|done].
  destruct (eq_str st "Done"); simpl.
  - destruct (py_get data "result") as [res|e]; simpl; [|done].
    destruct (truthy res); simpl.
    + destruct (py_getitem data "result") as [res'|e]; simpl; [|done].
      destruct (py_get res' "brand") as [brand|e]; simpl; [|done].
      by destruct (py_get res' "model") as [model|e].
    + by destruct (py_get data "message").
  - by destruct (py_get data "message").
Qed.

(** C10 at work: a lookup on a service that is down returns [None]; one
    whose request is cancelled does not return. *)
Lemma C10_only_base_exceptions_escape_witness :
  (∃ res, (Interrupt.get_device_info (completing stub_down)
             "123456789012345" "k" world0).1 = Interrupt.Returns res)
  ∧ (Interrupt.get_device_info Interrupt.stub_cancelled
       "123456789012345" "k" world0).1
    = Interrupt.Propagates Interrupt.CancelledError.
Proof.
  split.
  - destruct (C10_only_base_exceptions_escape (completing stub_down)
                "123456789012345" "k" world0) as (_ & _ & H).
    apply H. reflexivity.
  - destruct (C10_only_base_exceptions_escape Interrupt.stub_cancelled
                "123456789012345" "k" world0) as (_ & H & _).
    apply H. split; reflexivity.
Defined.

(** C10, as stated, fails: when the request of a lookup is cancelled, the
    function neither returns a record nor [None]: [CancelledError] reaches
    the caller, one request having been sent. *)
Lemma C10_cancellation_counterexample :
  let r := Interrupt.get_device_info Interrupt.stub_cancelled
             "123456789012345" "k" world0 in
  r.1 = Interrupt.Propagates Interrupt.CancelledError
  ∧ (∀ res, r.1 ≠ Interrupt.Returns res)
  ∧ requests r.2 = [url_of "k" "123456789012345"].
Proof.
  split; [reflexivity|]. split; [|reflexivity].
  intros res. vm_compute. discriminate.
Qed.

(** C5 at work: the second of two calls on a stub makes no request. *)
Lemma C5_cache_short_circuits_witness :
  let http := stub_get (λ _ _, true) in
  let w1 := (get_device_info http "123456789012345" "k" world0).2 in
  let w2 := after_calls http [("123456789012346", "k")] w1 in
  ∃ d w3, get_device_info http "123456789012345" "k2" w2 = (Ok (Some d), w3)
          ∧ requests w3 = requests w2 ∧ net w3 = net w2.
Proof.
  intros http w1 w2.
  destruct (C5_cache_short_circuits http "123456789012345" "k" world0)
    as [_ H].
  destruct (H (DeviceInfo "123456789012345" (PStr "Acme") (PStr "X1")
                "Desconhecido") w1 eq_refl) as (_ & _ & H2).
  destruct (H2 [("123456789012346", "k")] "k2") as (w3 & E & R & N & _).
  eauto.
Defined.



(** * Properties of the batch loop *)

Section Batch.

Context {T : Type}.
Variable http_get : string → T → result response * T.

Lemma all_fail_app (l1 l2 : list nat) (imei api_key : string) :
  ∀ w : world T,
    all_fail http_get (l1 ++ l2) imei api_key w
    ↔ all_fail http_get l1 imei api_key w
      ∧ all_fail http_get l2 imei api_key
          (after_calls http_get (candidates l1 imei api_key) w).
Proof.
  induction l1 as [|d l1 IH]; intros w; simpl.
  - tauto.
  - rewrite IH. tauto.
Qed.

Lemma candidates_app (l1 l2 : list nat) (imei api_key : string) :
  candidates (l1 ++ l2) imei api_key
  = candidates l1 imei api_key ++ candidates l2 imei api_key.
Proof. apply map_app. Qed.

Lemma range_S (k : nat) : range (S k) = range k ++ [k].
Proof. unfold range. by rewrite seq_S. Qed.

Lemma all_fail_range (imei api_key : string) (w : world T) (k : nat) :
  all_fail http_get (range k) imei api_key w
  ↔ ∀ j, (j < k)%nat → candidate_fails http_get imei api_key w j.
Proof.
  induction k as [|k IH].
  - simpl. split; [intros _ j; lia|done].
  - rewrite range_S, all_fail_app, IH. simpl. split.
    + intros (Hlt & Hk & _) j Hj.
      destruct (decide (j = k)) as [->|]; [exact Hk|apply Hlt; lia].
    + intros H. split; [intros j Hj; apply H; lia|].
      split; [|done]. apply (H k). lia.
Qed.

(** Failing candidates leave the cache alone and make one request each. *)
Lemma all_fail_effect (digitos : list nat) (imei api_key : string) :
  ∀ w : world T,
    all_fail http_get digitos imei api_key w →
    let w' := after_calls http_get (candidates digitos imei api_key) w in
    CACHE w' = CACHE w
    ∧ requests w'
      = requests w
        ++ map (λ d, url_of api_key (imei +:+ str_digit d)) digitos.
Proof.
  induction digitos as [|d ds IH]; intros w; simpl.
  - intros _. by rewrite app_nil_r.
  - intros [F Fs].
    destruct (get_device_info_none _ _ _ _ F) as (_ & l & E).
    rewrite E in *. simpl in *.
    destruct (IH _ Fs) as [-> ->]. simpl. by rewrite <- app_assoc.
Qed.

Lemma range_split (n k : nat) (pre post : list nat) :
  range n = pre ++ k :: post → pre = range k ∧ (k < n)%nat.
Proof.
  unfold range. intros E.
  assert (n = (length pre + S (length post))%nat) as ->.
  { apply (f_equal length) in E.
    rewrite length_seq, length_app in E. simpl in E. lia. }
  rewrite seq_app in E. apply app_inj_1 in E as [E1 E2];
    [|by rewrite length_seq].
  simpl in E2. injection E2 as <- _. split; [by rewrite E1|lia].
Qed.

Lemma for_digito_cons_none (d : nat) (ds : list nat)
    (imei api_key : string) (a : run T) :
  (get_device_info http_get (imei +:+ str_digit d) api_key (model a)).1
  = Ok None →
  for_digito http_get (d :: ds) imei api_key a
  = for_digito http_get ds imei api_key
      (Run (get_device_info http_get (imei +:+ str_digit d) api_key
              (model a)).2
           (view a) (all_device_info a)).
Proof.
  intros F. simpl. unfold bind at 1. unfold on_model.
  destruct (get_device_info _ _ _ _) as [r w']. simpl in F. by subst r.
Qed.

Lemma for_digito_cons_some (d : nat) (ds : list nat)
    (imei api_key : string) (a : run T) (di : device_info) (w' : world T) :
  get_device_info http_get (imei +:+ str_digit d) api_key (model a)
  = (Ok (Some di), w') →
  for_digito http_get (d :: ds) imei api_key a
  = (Ok tt, Run w' (IMEIView.add_result di (view a)) (all_device_info a ++ [di])).
Proof.
  intros E. simpl. unfold bind at 1. unfold on_model. rewrite E.
  reflexivity.
Qed.

(** The loop over the digits: the first candidate that gives a record ends
    it, with the record in the list and in the view; when none does, the
    error box is shown. *)
Lemma for_digito_spec (digitos : list nat) (imei api_key : string) :
  ∀ a : run T,
    (∃ pre k post di w',
        digitos = pre ++ k :: post
        ∧ all_fail http_get pre imei api_key (model a)
        ∧ get_device_info http_get (imei +:+ str_digit k) api_key
            (after_calls http_get (candidates pre imei api_key) (model a))
          = (Ok (Some di), w')
        ∧ for_digito http_get digitos imei api_key a
          = (Ok tt, Run w' (IMEIView.add_result di (view a))
                        (all_device_info a ++ [di])))
    ∨ (all_fail http_get digitos imei api_key (model a)
       ∧ for_digito http_get digitos imei api_key a
         = (Ok tt,
            Run (after_calls http_get (candidates digitos imei api_key)
                   (model a))
                (IMEIView.show_error (no_completion_message imei) (view a))
                (all_device_info a))).
Proof.
  induction digitos as [|d ds IH]; intros a.
  - right. split; [done|]. reflexivity.
  - destruct (get_device_info_returns http_get
                (imei +:+ str_digit d) api_key (model a))
      as ([di|] & w' & E).
    + left. exists [], d, ds, di, w'. simpl. split; [done|]. split; [done|].
      split; [done|]. by apply for_digito_cons_some.
    + assert ((get_device_info http_get (imei +:+ str_digit d) api_key
                 (model a)).1 = Ok None) as F by (by rewrite E).
      rewrite (for_digito_cons_none _ _ _ _ _ F).
      destruct (IH (Run (get_device_info http_get (imei +:+ str_digit d)
                           api_key (model a)).2
                        (view a) (all_device_info a)))
        as [(pre & k & post & di & w'' & -> & Fs & Ek & ->)|[Fs ->]];
        simpl in *.
      * left. exists (d :: pre), k, post, di, w''. simpl. eauto.
      * right. simpl. eauto.
Qed.

(** C1: on a base of 14 digits the loop calls [get_device_info] on
    base+"0", base+"1", ... in this order, each after the one before has
    returned, and stops at the first candidate [k] that gives a record: the
    candidates before [k] have failed, the calls made are exactly those for
    the digits 0..k (eight when only digit 7 succeeds), the record goes to
    the list and to the view, and when candidate [k] was not cached the
    requests sent are exactly those of the digits 0..k.
    When all ten fail, and only then, the error box "Nenhum IMEI valido
    encontrado para: base" is shown, after ten requests. *)
Theorem C1_completion_in_ascending_order
    (imei api_key : string) (a : run T) :
  is_base14 imei = true →
  let fails := candidate_fails http_get imei api_key (model a) in
  let url := λ d, url_of api_key (imei +:+ str_digit d) in
  ∃ a', for_digito http_get (range 10) imei api_key a = (Ok tt, a')
    ∧ ((∃ k d,
          (k < 10)%nat
          ∧ (∀ j, (j < k)%nat → fails j)
          ∧ get_device_info http_get (imei +:+ str_digit k) api_key
              (after_calls http_get (candidates (range k) imei api_key)
                 (model a))
            = (Ok (Some d), model a')
          ∧ model a'
            = after_calls http_get (candidates (range (S k)) imei api_key)
                (model a)
          ∧ all_device_info a' = all_device_info a ++ [d]
          ∧ view a' = IMEIView.add_result d (view a)
          ∧ (CACHE (model a) !! (imei +:+ str_digit k) = None →
             requests (model a')
             = requests (model a) ++ map url (range (S k))))
       ∨ ((∀ j, (j < 10)%nat → fails j)
          ∧ model a'
            = after_calls http_get (candidates (range 10) imei api_key)
                (model a)
          ∧ all_device_info a' = all_device_info a
          ∧ view a' = IMEIView.show_error (no_completion_message imei) (view a)
          ∧ requests (model a')
            = requests (model a) ++ map url (range 10)))
    ∧ (dialogs (view a')
       = dialogs (view a) ++ [showerror (no_completion_message imei)]
       ↔ ∀ j, (j < 10)%nat → fails j).
Proof.
  intros _ fails url.
  destruct (for_digito_spec (range 10) imei api_key a)
    as [(pre & k & post & di & w' & Er & Fs & Ek & ->)|[Fs ->]].
  - apply range_split in Er as [-> Hk].
    eexists. split; [reflexivity|]. cbn [model view all_device_info]. split.
    + left. exists k, di. split; [done|].
      split; [by apply all_fail_range|]. split; [done|].
      split.
      { rewrite range_S, candidates_app, after_calls_app.
        unfold candidates at 1. cbn [map after_calls]. by rewrite Ek. }
      split; [done|]. split; [done|].
      intros Hm. destruct (all_fail_effect _ _ _ _ Fs) as [Hc Hr].
      destruct (get_device_info_some _ _ _ _ _ _ Ek) as [[H _]|[_ ->]];
        [congruence|].
      cbn [requests]. rewrite Hr, range_S, map_app, <- app_assoc. reflexivity.
    + split.
      * intros E. exfalso.
        apply (f_equal length) in E. unfold IMEIView.add_result in E.
        cbn [dialogs] in E. rewrite length_app in E.
        cbn [length] in E. lia.
      * intros F. exfalso. specialize (F k Hk).
        unfold fails, candidate_fails in F. by rewrite Ek in F.
  - eexists. split; [reflexivity|]. cbn [model view all_device_info]. split.
    + right. split; [by apply all_fail_range|].
      destruct (all_fail_effect _ _ _ _ Fs) as [_ Hr]. done.
    + split; [intros _; by apply all_fail_range|done].
Qed.

End Batch.

(** C1 at work: on a service that finds only base+"7", the loop makes the
    eight requests for the digits 0 to 7, in this order, and no other. *)
Lemma C1_completion_in_ascending_order_witness :
  let only7 := λ (url : string) (_ : nat),
    bool_decide (url = url_of "k" "123456789012347") in
  is_base14 "12345678901234" = true
  ∧ ∃ a', for_digito (stub_get only7) (range 10) "12345678901234" "k" run0
          = (Ok tt, a')
          ∧ requests (model a')
            = map (λ d, url_of "k" ("12345678901234" +:+ str_digit d))
                [0; 1; 2; 3; 4; 5; 6; 7]%nat
          ∧ dialogs (view a') = [].
Proof.
  intros only7. split; [reflexivity|].
  destruct (C1_completion_in_ascending_order (stub_get only7)
              "12345678901234" "k" run0 eq_refl) as (a' & E & _ & _).
  exists a'. split; [exact E|].
  vm_compute in E. injection E as <-. split; reflexivity.
Defined.

(** * Properties of the loop over the identifiers *)

Section Loop.

Context {T : Type}.
Variable http_get : string → T → result response * T.

Lemma validation_test (imei : string) :
  negb (isdigit imei) || negb ((len imei =? 14) || (len imei =? 15))
  = negb (valid_imei imei).
Proof. unfold valid_imei. by rewrite negb_andb. Qed.

Lemma process_imei_blank (imei api_key : string) (a : run T) :
  non_blank imei = false →
  process_imei http_get imei api_key a = (Ok tt, a).
Proof.
  unfold non_blank, process_imei. intros ->. reflexivity.
Qed.

Lemma process_imei_invalid (imei api_key : string) (a : run T) :
  non_blank imei = true →
  valid_imei imei = false →
  process_imei http_get imei api_key a
  = (Ok tt, Run (model a)
                (IMEIView.show_error (invalid_message imei) (view a))
                (all_device_info a)).
Proof.
  unfold non_blank, process_imei. intros -> V.
  unfold try_except, try_imei, bind.
  rewrite validation_test, V. cbn [negb]. unfold raise.
  destruct a; reflexivity.
Qed.

Lemma process_imei_14 (imei api_key : string) (a a' : run T) :
  non_blank imei = true →
  valid_imei imei = true →
  len imei = 14 →
  for_digito http_get (range 10) imei api_key a = (Ok tt, a') →
  process_imei http_get imei api_key a
  = (Ok tt, Run (model a') (IMEIView.update_progress (view a'))
                (all_device_info a')).
Proof.
  unfold non_blank, process_imei. intros -> V L E.
  unfold try_except, try_imei, bind.
  rewrite validation_test, V. cbn [negb]. unfold ret at 1.
  rewrite L, Z.eqb_refl, E. reflexivity.
Qed.

Lemma process_imei_15 (imei api_key : string) (a : run T)
    (r : option device_info) (w' : world T) :
  non_blank imei = true →
  valid_imei imei = true →
  len imei ≠ 14 →
  get_device_info http_get imei api_key (model a) = (Ok r, w') →
  process_imei http_get imei api_key a
  = (Ok tt,
     match r with
     | Some d => Run w' (IMEIView.update_progress (IMEIView.add_result d (view a)))
                     (all_device_info a ++ [d])
     | None => Run w' (IMEIView.update_progress (view a)) (all_device_info a)
     end).
Proof.
  unfold non_blank, process_imei. intros -> V L E.
  unfold try_except, try_imei, bind.
  rewrite validation_test, V. cbn [negb]. unfold ret at 1.
  apply Z.eqb_neq in L. rewrite L. unfold on_model. rewrite E.
  destruct r; reflexivity.
Qed.

(** One identifier: the body returns, and leaves its outcome. *)
Lemma process_imei_outcome (imei api_key : string) (a : run T) :
  ∃ a', process_imei http_get imei api_key a = (Ok tt, a')
        ∧ identifier_outcome http_get imei api_key a a'
        ∧ all_device_info a `prefix_of` all_device_info a'
        ∧ dialogs (view a) `prefix_of` dialogs (view a').
Proof.
  unfold identifier_outcome.
  destruct (non_blank imei) eqn:B; cbn [negb].
  2:{ rewrite process_imei_blank by done. eauto. }
  destruct (valid_imei imei) eqn:V; cbn [negb].
  2:{ rewrite process_imei_invalid by done. eexists.
      split; [done|]. split; [done|]. cbn [all_device_info view].
      split; [done|]. unfold IMEIView.show_error. cbn [dialogs].
      by apply prefix_app_r. }
  destruct (len imei =? 14) eqn:L.
  - apply Z.eqb_eq in L.
    destruct (for_digito_spec http_get (range 10) imei api_key a)
      as [(pre & k & post & di & w' & Er & Fs & Ek & E)|[Fs E]];
      rewrite (process_imei_14 _ _ _ _ B V L E);
      eexists; (split; [done|]); cbn [all_device_info view model];
      unfold IMEIView.update_progress, IMEIView.add_result,
        IMEIView.show_error;
      cbn [result_text dialogs].
    + apply range_split in Er as [-> Hk].
      split; [left; exists k, di; done|].
      split; [by apply prefix_app_r|done].
    + split; [by right|]. split; [done|by apply prefix_app_r].
  - apply Z.eqb_neq in L.
    destruct (get_device_info_returns http_get imei api_key (model a))
      as (r & w' & E).
    rewrite (process_imei_15 _ _ _ _ _ B V L E), E.
    destruct r as [d|]; eexists; (split; [done|]);
      cbn [all_device_info view model]; unfold IMEIView.update_progress,
      IMEIView.add_result; cbn [result_text dialogs].
    + split; [done|]. split; [by apply prefix_app_r|done].
    + done.
Qed.

Lemma for_imei_app (l1 l2 : list string) (api_key : string) :
  ∀ a : run T,
    for_imei http_get (l1 ++ l2) api_key a
    = match for_imei http_get l1 api_key a with
      | (Ok _, a1) => for_imei http_get l2 api_key a1
      | (Raise e, a1) => (Raise e, a1)
      end.
Proof.
  induction l1 as [|x l1 IH]; intros a; [reflexivity|].
  cbn [Datatypes.app for_imei]. unfold bind.
  destruct (process_imei http_get x api_key a) as [[[]|e] a1]; [|done].
  apply IH.
Qed.

(** The loop returns, and what was recorded stays. *)
Lemma for_imei_returns (imeis : list string) (api_key : string) :
  ∀ a : run T,
    ∃ a', for_imei http_get imeis api_key a = (Ok tt, a')
          ∧ all_device_info a `prefix_of` all_device_info a'
          ∧ dialogs (view a) `prefix_of` dialogs (view a').
Proof.
  induction imeis as [|x l IH]; intros a.
  - exists a. done.
  - destruct (process_imei_outcome x api_key a) as (a1 & E1 & _ & P1 & D1).
    destruct (IH a1) as (a' & E' & P' & D').
    exists a'. cbn [for_imei]. unfold bind. rewrite E1.
    split; [done|]. split; by etrans.
Qed.



(** Digits are not white space, so an identifier of digits is its own
    trimmed form. *)
Lemma digit_not_space (c : ascii) :
  char_isdigit c = true → char_isspace c = false.
Proof.
  unfold char_isdigit, char_isspace, is_decimal. intros D.
  apply not_true_iff_false. intros S.
  repeat (rewrite ?orb_true_iff, ?andb_true_iff, ?Z.leb_le, ?Z.eqb_eq in D).
  repeat (rewrite ?orb_true_iff, ?andb_true_iff, ?Z.leb_le, ?Z.eqb_eq in S).
  lia.
Qed.

Lemma lstrip_digits (cs : list ascii) :
  forallb char_isdigit cs = true → lstrip_chars cs = cs.
Proof.
  destruct cs as [|c cs]; [done|]. simpl. intros D.
  apply andb_prop in D as [D _]. by rewrite (digit_not_space _ D).
Qed.

Lemma isdigit_strip (imei : string) :
  isdigit imei = true → strip imei = imei.
Proof.
  unfold isdigit, strip. intros D.
  assert (forallb char_isdigit (chars imei) = true) as D'.
  { destruct (chars imei); done. }
  rewrite (lstrip_digits _ D').
  rewrite lstrip_digits by (by rewrite forallb_rev).
  rewrite rev_involutive. apply String.string_of_list_ascii_of_string.
Qed.

Lemma non_blank_strip (imei : string) :
  non_blank imei = false ↔ strip imei = "".
Proof.
  unfold non_blank. destruct (strip imei); simpl; split; done.
Qed.

(** C9, as the code has it: the trimmed string is used to tell a blank
    line only.  A string that is empty after trimming is skipped: its turn
    changes nothing (no outcome, no progress) and the loop runs as if it
    were not in the list.  A string that is not blank is validated as it
    was given: when it has white space around it, it fails the validation
    and gets the error box. *)
Theorem C9_blank_lines_are_skipped
    (imei api_key : string) (a : run T) :
  (strip imei = "" →
   process_imei http_get imei api_key a = (Ok tt, a)
   ∧ ∀ l1 l2 a0,
       for_imei http_get (l1 ++ imei :: l2) api_key a0
       = for_imei http_get (l1 ++ l2) api_key a0)
  ∧ (strip imei ≠ "" → strip imei ≠ imei →
     process_imei http_get imei api_key a
     = (Ok tt, Run (model a)
                   (IMEIView.show_error (invalid_message imei) (view a))
                   (all_device_info a))).
Proof.
  split.
  - intros B%non_blank_strip. split; [by apply process_imei_blank|].
    intros l1 l2 a0. rewrite !for_imei_app.
    destruct (for_imei http_get l1 api_key a0) as [[[]|e] a1]; [|done].
    cbn [for_imei]. unfold bind. by rewrite process_imei_blank.
  - intros B S. apply process_imei_invalid.
    + destruct (non_blank imei) eqn:N; [done|].
      by apply non_blank_strip in N.
    + unfold valid_imei. destruct (isdigit imei) eqn:D; [|done].
      by apply isdigit_strip in D.
Qed.

End Loop.

(** * The properties at work on the stub services *)



(** C9 at work: a line of blanks is skipped, a padded identifier is
    rejected. *)
Lemma C9_blank_lines_are_skipped_witness :
  process_imei (stub_get (λ _ _, true)) "   " "k" run0 = (Ok tt, run0)
  ∧ process_imei (stub_get (λ _ _, true)) "123456789012345 " "k" run0
    = (Ok tt, Run world0
                  (IMEIView.show_error (invalid_message "123456789012345 ")
                     view0) []).
Proof.
  split.
  - apply (C9_blank_lines_are_skipped (stub_get (λ _ _, true)) "   " "k"
             run0). reflexivity.
  - apply (C9_blank_lines_are_skipped (stub_get (λ _ _, true))
             "123456789012345 " "k" run0); vm_compute; discriminate.
Defined.

(** C9, as stated, fails: the identifier "123456789012345 " is a valid
    15-digit identifier once trimmed, and the service finds it, yet the loop
    validates the string as given and rejects it. *)
Lemma C9_trim_before_validation_counterexample :
  let http := stub_get (λ _ _, true) in
  let imei := "123456789012345 " in
  strip imei = "123456789012345"
  ∧ valid_imei (strip imei) = true
  ∧ all_device_info (process_imei http imei "k" run0).2 = []
  ∧ dialogs (view (process_imei http imei "k" run0).2)
    = [showerror (invalid_message imei)]
  ∧ all_device_info (process_imei http (strip imei) "k" run0).2
    = [DeviceInfo "123456789012345" (PStr "Acme") (PStr "X1")
         "Desconhecido"].
Proof. repeat split; vm_compute; reflexivity. Qed.

(** C3 on the code: in the batch of the specification, on a service that
    refuses the ten completions and then finds the 15-digit identifier, the
    progress bar ends at 2, not 3: the invalid identifier "123" gets its
    error box and no step of the bar. *)
Theorem C3_progress_after_the_batch :
  let http := stub_get (λ _ n, 10 <=? n)%nat in
  let batch := [""; "123"; "12345678901234"; "123456789012345"] in
  let a' := (process_imeis http "k" batch run0).2 in
  (process_imeis http "k" batch run0).1 = Ok tt
  ∧ progress_value (view a') = 2
  ∧ progress_maximum (view a') = 4
  ∧ net (model a') = 11%nat
  ∧ all_device_info a'
    = [DeviceInfo "123456789012345" (PStr "Acme") (PStr "X1")
         "Desconhecido"]
  ∧ take 2 (dialogs (view a'))
    = [showerror (invalid_message "123");
       showerror (no_completion_message "12345678901234")].
Proof. repeat split; vm_compute; reflexivity. Qed.

(** * Further properties of the check digit *)

Lemma foldr_add_app (l1 l2 : list Z) :
  foldr Z.add 0 (l1 ++ l2) = foldr Z.add 0 l1 + foldr Z.add 0 l2.
Proof. induction l1 as [|x l1 IH]; simpl; lia. Qed.

Lemma is_decimal_value (c : ascii) :
  is_decimal c = true → 0 ≤ digit_value c ≤ 9.
Proof.
  unfold is_decimal, digit_value. intros D.
  apply andb_prop in D as [?%Z.leb_le ?%Z.leb_le]. lia.
Qed.

Lemma ord_inj (c c' : ascii) : ord c = ord c' → c = c'.
Proof.
  unfold ord. intros E%(inj Z.of_N).
  by rewrite <- (ascii_N_embedding c), <- (ascii_N_embedding c'), E.
Qed.

Lemma spec_weight_range (i : nat) (d : Z) :
  0 ≤ d ≤ 9 → 0 ≤ spec_weight i d ≤ 9.
Proof.
  unfold spec_weight. intros H.
  destruct (Nat.odd i); [|done].
  destruct (9 <? 2 * d) eqn:E; [apply Z.ltb_lt in E|apply Z.ltb_ge in E];
    lia.
Qed.

Lemma spec_weight_inj (i : nat) (d d' : Z) :
  0 ≤ d ≤ 9 → 0 ≤ d' ≤ 9 → spec_weight i d = spec_weight i d' → d = d'.
Proof.
  unfold spec_weight. intros H H'.
  destruct (Nat.odd i); [|done].
  destruct (9 <? 2 * d) eqn:E; [apply Z.ltb_lt in E|apply Z.ltb_ge in E];
    (destruct (9 <? 2 * d') eqn:E';
       [apply Z.ltb_lt in E'|apply Z.ltb_ge in E']); lia.
Qed.

(** The weighted sum of a sequence of digits, split at one position. *)
Lemma spec_sum_split (pre post : list Z) (d : Z) :
  spec_sum (pre ++ d :: post)
  = foldr Z.add 0 (imap spec_weight (rev post))
    + spec_weight (length post) d
    + foldr Z.add 0
        (imap (λ n, spec_weight (S (length post) + n)) (rev pre)).
Proof.
  unfold spec_sum.
  rewrite rev_app_distr. simpl. rewrite <- app_assoc.
  rewrite imap_app, foldr_add_app. simpl.
  rewrite length_rev, Nat.add_0_r.
  rewrite (imap_ext _ (λ n, spec_weight (S (length post) + n)) (rev pre)).
  - simpl. lia.
  - intros i x _. simpl. f_equal. lia.
Qed.

(** X1: the digit returned for a base of 14 decimal digits completes the
    weighted sum of the loop to a multiple of 10. *)
Theorem X1_check_digit_completes_the_sum (s : string) :
  is_base14 s = true →
  ∃ soma d,
    luhn_loop 0 (rev (chars s)) 0 = Ok soma
    ∧ calcular_digito_verificacao s = Ok d
    ∧ (soma + d) mod 10 = 0.
Proof.
  intros B. pose proof B as B'. apply andb_prop in B' as [L D].
  pose proof (luhn_loop_decimal (rev (chars s)) 0 0) as E.
  rewrite forallb_rev in E. specialize (E D).
  eexists. eexists. split; [exact E|].
  unfold calcular_digito_verificacao. rewrite L, E. simpl.
  split; [reflexivity|].
  Z.div_mod_to_equations. lia.
Qed.

Lemma X1_check_digit_completes_the_sum_witness :
  ∃ soma d,
    calcular_digito_verificacao "49015420323751" = Ok d
    ∧ (soma + d) mod 10 = 0.
Proof.
  destruct (X1_check_digit_completes_the_sum "49015420323751" eq_refl)
    as (soma & d & _ & E & H).
  eauto.
Defined.

(** X2: two bases of 14 decimal digits that differ in exactly one
    position never get the same check digit. *)
Theorem X2_single_digit_change_changes_check_digit
    (s s' : string) (pre post : list ascii) (c c' : ascii) :
  is_base14 s = true → is_base14 s' = true →
  chars s = pre ++ c :: post → chars s' = pre ++ c' :: post →
  c ≠ c' →
  calcular_digito_verificacao s ≠ calcular_digito_verificacao s'.
Proof.
  intros B B' E E' Hc.
  rewrite (calcular_base14 _ B), (calcular_base14 _ B').
  intros [= H]. apply Hc. apply ord_inj.
  apply andb_prop in B as [_ D]. apply andb_prop in B' as [_ D'].
  rewrite E in D. rewrite E' in D'.
  rewrite forallb_app in D, D'. simpl in D, D'.
  apply andb_prop in D as [_ [Dc%is_decimal_value _]%andb_prop].
  apply andb_prop in D' as [_ [Dc'%is_decimal_value _]%andb_prop].
  assert (digit_value c = digit_value c') as V;
    [|unfold digit_value in V; lia].
  apply (spec_weight_inj (length post)); [done..|].
  pose proof (spec_weight_range (length post) _ Dc).
  pose proof (spec_weight_range (length post) _ Dc').
  unfold spec_check_digit, digit_values in H. rewrite E, E' in H.
  rewrite !map_app in H. simpl in H. rewrite !spec_sum_split in H.
  rewrite !length_map in H.
  Z.div_mod_to_equations. lia.
Qed.

Lemma X2_single_digit_change_changes_check_digit_witness :
  calcular_digito_verificacao "49015420323751"
  ≠ calcular_digito_verificacao "49015420328751".
Proof.
  apply (X2_single_digit_change_changes_check_digit
           "49015420323751" "49015420328751"
           (chars "4901542032") (chars "751") "3"%char "8"%char);
    [reflexivity..|discriminate].
Defined.

(** * Further properties of the lookup *)

Section LookupMore.

Context {T : Type}.
Variable http_get : string → T → result response * T.

(** On a miss with a found device, the record is built from the answer and
    stored. *)
Lemma get_device_info_found (imei api_key : string) (w : world T)
    (brand model : pyval) :
  CACHE w !! imei = None →
  service_found (http_get (url_of api_key imei) (net w)).1
  = Some (brand, model) →
  let d := DeviceInfo imei brand model "Desconhecido" in
  get_device_info http_get imei api_key w
  = (Ok (Some d),
     World (<[imei := d]> (CACHE w))
           (http_get (url_of api_key imei) (net w)).2
           (requests w ++ [url_of api_key imei]) (log w)).
Proof.
  intros H. simpl. unfold get_device_info. rewrite H.
  unfold url_of, request_device_info, session_get. unfold_M.
  destruct (http_get _ (net w)) as [[resp|e] n']; simpl; [|done].
  unfold raise_for_status.
  destruct (400 <=? status resp); simpl; [done|].
  destruct (json resp) as [data|e]; simpl; [|done].
  destruct data as [|b|n|q|s|l|d]; simpl; try done.
  destruct (eq_str (default PNone (dict_get d "status")) "Done"); simpl;
    [|done].
  destruct (dict_get d "result") as [[|b|n|q|s|l|[|item res]]|]; simpl;
    try done.
  by intros [= <- <-].
Qed.

(** On a miss without a found device, nothing is returned. *)
Lemma get_device_info_not_found (imei api_key : string) (w : world T) :
  CACHE w !! imei = None →
  service_found (http_get (url_of api_key imei) (net w)).1 = None →
  (get_device_info http_get imei api_key w).1 = Ok None.
Proof.
  intros H. unfold get_device_info. rewrite H.
  unfold url_of, request_device_info, session_get. unfold_M.
  destruct (http_get _ (net w)) as [[resp|e] n']; simpl; [|done].
  unfold raise_for_status.
  destruct (400 <=? status resp); simpl; [done|].
  destruct (json resp) as [data|e]; simpl; [|done].
  destruct data as [|b|n|q|s|l|d]; simpl; try done.
  destruct (eq_str (default PNone (dict_get d "status")) "Done"); simpl;
    [|done].
  destruct (dict_get d "result") as [[|b|n|q|s|l|[|item res]]|]; simpl;
    try done; intros _.
  - by destruct b.
  - by destruct (n =? 0).
  - by destruct (Qnum q =? 0).
  - by destruct s.
  - by destruct l.
Qed.

(** X3: on a miss, a record is returned exactly when the service answers
    below status 400 with an object whose status is "Done" and whose result
    is a non-empty object; the record then carries the identifier asked for,
    the result's brand and model ([None] when the result lacks one) and the
    fixed system "Desconhecido".  The three kinds of answer (found, refused,
    failed) exclude one another and leave no fourth. *)
Theorem X3_record_iff_service_found
    (imei api_key : string) (w : world T) :
  CACHE w !! imei = None →
  let r := (http_get (url_of api_key imei) (net w)).1 in
  (∀ d, (get_device_info http_get imei api_key w).1 = Ok (Some d)
        ↔ service_found r = Some (Marca d, Modelo d)
          ∧ IMEI d = imei ∧ Sistema_Operacional d = "Desconhecido")
  ∧ ((is_Some (service_found r)
      ∧ service_refusal r = None ∧ transport_failure r = false)
     ∨ (service_found r = None
        ∧ is_Some (service_refusal r) ∧ transport_failure r = false)
     ∨ (service_found r = None
        ∧ service_refusal r = None ∧ transport_failure r = true)).
Proof.
  intros H r. split.
  - intros d. split.
    + intros E.
      destruct (service_found r) as [[brand model]|] eqn:F.
      * rewrite (get_device_info_found _ _ _ _ _ H F) in E.
        simpl in E. by injection E as <-.
      * by rewrite (get_device_info_not_found _ _ _ H F) in E.
    + intros (F & <- & S).
      rewrite (get_device_info_found _ _ _ _ _ H F). simpl.
      destruct d. simpl in *. by subst.
  - subst r. destruct (http_get _ (net w)) as [[resp|e] n']; simpl;
      [|by right; right].
    destruct (400 <=? status resp); simpl; [by right; right|].
    destruct (json resp) as [data|e]; simpl; [|by right; right].
    destruct data as [|b|n|q|s|l|d]; simpl; try (by right; right).
    destruct (eq_str (default PNone (dict_get d "status")) "Done"); simpl;
      [|by right; left].
    destruct (dict_get d "result") as [[|b|n|q|s|l|[|item res]]|]; simpl;
      try (by right; left); try (by left).
    + destruct b; [by right; right|by right; left].
    + destruct (n =? 0); [by right; left|by right; right].
    + destruct (Qnum q =? 0); [by right; left|by right; right].
    + destruct s; [by right; left|by right; right].
    + destruct l; [by right; left|by right; right].
Qed.

(** X4: a lookup that returns nothing is not remembered: the cache is as
    before, and asking again for the same identifier sends a request
    again. *)
Theorem X4_failures_are_not_cached
    (imei api_key api_key' : string) (w : world T) :
  (get_device_info http_get imei api_key w).1 = Ok None →
  let w1 := (get_device_info http_get imei api_key w).2 in
  let w2 := (get_device_info http_get imei api_key' w1).2 in
  CACHE w1 = CACHE w
  ∧ requests w1 = requests w ++ [url_of api_key imei]
  ∧ requests w2 = requests w1 ++ [url_of api_key' imei].
Proof.
  intros F w1 w2.
  destruct (get_device_info_none _ _ _ _ F) as (Hm & l & E).
  subst w2 w1. rewrite E. cbn [snd CACHE requests].
  split; [done|]. split; [done|].
  set (w1 := World _ _ _ _).
  assert (CACHE w1 !! imei = None) as Hm1 by done.
  destruct (get_device_info_miss http_get imei api_key' w1 Hm1)
    as [(brand & model & ->)|(l' & ->)]; done.
Qed.

Lemma get_device_info_cache_ok
    (imei api_key : string) (w : world T) :
  cache_ok w →
  cache_ok (get_device_info http_get imei api_key w).2
  ∧ ∀ d, (get_device_info http_get imei api_key w).1 = Ok (Some d) →
         IMEI d = imei
         ∧ CACHE (get_device_info http_get imei api_key w).2 !! imei
           = Some d.
Proof.
  intros Hok.
  destruct (CACHE w !! imei) as [cached|] eqn:H.
  - rewrite (get_device_info_hit _ _ _ _ _ H). simpl.
    split; [done|]. intros d [= <-]. split; [by apply Hok|done].
  - destruct (get_device_info_miss http_get imei api_key w H)
      as [(brand & model & ->)|(l & ->)]; simpl.
    + split.
      * intros k d. unfold cache_ok in Hok. cbn [CACHE].
        destruct (decide (imei = k)) as [->|Hne].
        -- rewrite lookup_insert_eq. by intros [= <-].
        -- rewrite lookup_insert_ne by done. apply Hok.
      * intros d [= <-]. split; [done|]. apply lookup_insert_eq.
    + split; [done|]. intros d [=].
Qed.

(** X5: when every record of the cache is stored under its own
    identifier, a lookup keeps it so, and a record it returns carries the
    identifier that was asked for. *)
Theorem X5_records_carry_their_identifier
    (imei api_key : string) (w : world T) :
  cache_ok w →
  cache_ok (get_device_info http_get imei api_key w).2
  ∧ ∀ d, (get_device_info http_get imei api_key w).1 = Ok (Some d) →
         IMEI d = imei
         ∧ CACHE (get_device_info http_get imei api_key w).2 !! imei
           = Some d.
Proof. apply get_device_info_cache_ok. Qed.

End LookupMore.

Lemma X3_record_iff_service_found_witness :
  let http := stub_get (λ _ _, true) in
  (get_device_info http "123456789012345" "k" world0).1
  = Ok (Some (DeviceInfo "123456789012345" (PStr "Acme") (PStr "X1")
                "Desconhecido")).
Proof.
  intros http.
  destruct (X3_record_iff_service_found http "123456789012345" "k" world0
              eq_refl) as [H _].
  apply H. repeat split.
Defined.

Lemma X4_failures_are_not_cached_witness :
  let w1 := (get_device_info stub_down "123456789012345" "k" world0).2 in
  let w2 := (get_device_info stub_down "123456789012345" "k" w1).2 in
  CACHE w1 = ∅
  ∧ requests w2
    = [url_of "k" "123456789012345"; url_of "k" "123456789012345"].
Proof.
  intros w1 w2.
  destruct (X4_failures_are_not_cached stub_down "123456789012345" "k" "k"
              world0 eq_refl) as (C & R1 & R2).
  split; [exact C|]. subst w1 w2. rewrite R2, R1. reflexivity.
Defined.

Lemma X5_records_carry_their_identifier_witness :
  let http := stub_get (λ _ _, true) in
  cache_ok (get_device_info http "123456789012345" "k" world0).2.
Proof.
  intros http.
  apply (X5_records_carry_their_identifier http "123456789012345" "k"
           world0).
  intros k d H. unfold world0 in H. cbn [CACHE] in H.
  by rewrite lookup_empty in H.
Defined.

(** * Further properties of the batch *)

Lemma filter_length_all {A} (P : A → Prop) `{∀ x, Decision (P x)}
    (l : list A) :
  length (filter P l) = length l ↔ Forall P l.
Proof.
  induction l as [|x l IH].
  - split; [constructor|done].
  - pose proof (length_filter P l) as Hle.
    rewrite filter_cons. destruct (decide (P x)) as [Hx|Hx]; simpl.
    + rewrite Forall_cons. split.
      * intros E. split; [done|]. apply IH. lia.
      * intros [_ F]. f_equal. by apply IH.
    + split; [lia|]. by intros [? _]%Forall_cons.
Qed.

Section BatchMore.

Context {T : Type}.
Variable http_get : string → T → result response * T.

Lemma accepted_blank (imei : string) :
  non_blank imei = false → accepted imei = false.
Proof. unfold accepted. by intros ->. Qed.

Lemma accepted_invalid (imei : string) :
  valid_imei imei = false → accepted imei = false.
Proof. unfold accepted. intros ->. apply andb_false_r. Qed.

(** The turn of every line returns, in one of the six ways. *)
Lemma process_imei_turn (imei api_key : string) (a : run T) :
  ∃ a', process_imei http_get imei api_key a = (Ok tt, a')
        ∧ turn http_get imei api_key a a'.
Proof.
  destruct (non_blank imei) eqn:B.
  2:{ rewrite process_imei_blank by done. eexists. split; [done|].
      by constructor. }
  destruct (valid_imei imei) eqn:V.
  2:{ rewrite process_imei_invalid by done. eexists. split; [done|].
      by constructor. }
  assert (accepted imei = true) as Acc by (unfold accepted; by rewrite B, V).
  destruct (len imei =? 14) eqn:L.
  - apply Z.eqb_eq in L.
    destruct (for_digito_spec http_get (range 10) imei api_key a)
      as [(pre & k & post & di & w' & Er & Fs & Ek & E)|[Fs E]];
      rewrite (process_imei_14 _ _ _ _ _ B V L E);
      eexists; (split; [done|]); cbn [model view all_device_info].
    + apply range_split in Er as [-> Hk]. by eapply turn_completed.
    + by apply turn_exhausted.
  - assert (len imei = 15) as L15.
    { unfold valid_imei in V. apply andb_prop in V as [_ V].
      rewrite L in V. simpl in V. by apply Z.eqb_eq in V. }
    apply Z.eqb_neq in L.
    destruct (get_device_info_returns http_get imei api_key (model a))
      as (r & w' & E).
    rewrite (process_imei_15 _ _ _ _ _ _ B V L E).
    destruct r as [d|]; eexists; (split; [done|]).
    + by eapply turn_found.
    + by apply turn_not_found.
Qed.

(** Induction over the turns of a batch. *)
Lemma for_imei_turns (api_key : string)
    (P : list string → run T → run T → Prop) :
  (∀ a, P [] a a) →
  (∀ x l a a1 a',
     turn http_get x api_key a a1 →
     for_imei http_get l api_key a1 = (Ok tt, a') →
     P l a1 a' → P (x :: l) a a') →
  ∀ imeis a a',
    for_imei http_get imeis api_key a = (Ok tt, a') → P imeis a a'.
Proof.
  intros Hnil Hcons. induction imeis as [|x l IH]; intros a a' E.
  - injection E as <-. apply Hnil.
  - destruct (process_imei_turn x api_key a) as (a1 & E1 & Tn).
    cbn [for_imei] in E. unfold bind in E. rewrite E1 in E.
    eapply Hcons; [done..|]. by apply IH.
Qed.

(** [process_imeis] with a key and at least one line: the loop, between
    the preparation of the view and the closing message. *)
Lemma process_imeis_unfold (api_key : string) (imeis : list string)
    (a : run T) :
  str_truthy api_key = true → imeis ≠ [] →
  let a0 :=
    Run (model a)
        (IMEIView.set_progress_max (Z.of_nat (length imeis))
           (IMEIView.clear_results (view a))) [] in
  ∃ a1, for_imei http_get imeis api_key a0 = (Ok tt, a1)
    ∧ process_imeis http_get api_key imeis a
      = (Ok tt,
         Run (model a1)
             (match all_device_info a1 with
              | [] => IMEIView.show_info "Nenhum resultado encontrado."
                        (view a1)
              | _ => IMEIView.set_export_data (all_device_info a1) (view a1)
              end)
             (all_device_info a1)).
Proof.
  intros K Hne a0.
  destruct (for_imei_returns http_get imeis api_key a0) as (a1 & E & _).
  exists a1. split; [done|].
  unfold process_imeis. rewrite K. destruct imeis as [|x l]; [done|].
  cbn [negb orb]. unfold bind, on_view. cbn [model view all_device_info].
  fold a0. rewrite E. by destruct (all_device_info a1).
Qed.

Lemma turn_progress (imei api_key : string) (a a1 : run T) :
  turn http_get imei api_key a a1 →
  progress_value (view a1)
  = progress_value (view a) + (if accepted imei then 1 else 0)
  ∧ progress_maximum (view a1) = progress_maximum (view a).
Proof.
  destruct 1 as [B|B V|k d w' Acc|Acc|d w' Acc|w' Acc];
    rewrite ?Acc, ?(accepted_blank _ B), ?(accepted_invalid _ V);
    cbn; split; lia.
Qed.

Lemma for_imei_progress (api_key : string) (imeis : list string)
    (a a' : run T) :
  for_imei http_get imeis api_key a = (Ok tt, a') →
  progress_value (view a')
  = progress_value (view a)
    + Z.of_nat (length (filter (λ i, accepted i = true) imeis))
  ∧ progress_maximum (view a') = progress_maximum (view a).
Proof.
  revert imeis a a'. apply for_imei_turns.
  - intros a. simpl. split; lia.
  - intros x l a a1 a' Tn _ [IHv IHm].
    destruct (turn_progress _ _ _ _ Tn) as [Hv Hm].
    rewrite IHv, IHm, Hv, Hm, filter_cons.
    destruct (accepted x) eqn:Acc.
    + rewrite decide_True by done. cbn [length]. split; lia.
    + rewrite decide_False by done. split; lia.
Qed.

(** X6: a run of [process_imeis] with a key and at least one line moves
    the progress bar by one step for each line that is not blank and passes
    the validation, and by none for the others; the bar is never reset, and
    its maximum is the number of lines.  So a bar that starts at 0 reaches
    its maximum exactly when every line is an accepted identifier. *)
Theorem X6_progress_counts_accepted_lines
    (api_key : string) (imeis : list string) (a : run T) :
  str_truthy api_key = true → imeis ≠ [] →
  ∃ a', process_imeis http_get api_key imeis a = (Ok tt, a')
    ∧ progress_value (view a')
      = progress_value (view a)
        + Z.of_nat (length (filter (λ i, accepted i = true) imeis))
    ∧ progress_maximum (view a') = Z.of_nat (length imeis)
    ∧ (progress_value (view a) = 0 →
       (progress_value (view a') = progress_maximum (view a')
        ↔ Forall (λ i, accepted i = true) imeis)).
Proof.
  intros K Hne.
  destruct (process_imeis_unfold api_key imeis a K Hne) as (a1 & E & ->).
  destruct (for_imei_progress _ _ _ _ E) as [Hv Hm].
  cbn [view model all_device_info IMEIView.set_progress_max
         IMEIView.clear_results progress_value progress_maximum] in Hv, Hm.
  eexists. split; [done|]. cbn [view].
  assert (∀ v : view_state,
            progress_value
              match all_device_info a1 with
              | [] => IMEIView.show_info "Nenhum resultado encontrado." v
              | _ => IMEIView.set_export_data (all_device_info a1) v
              end = progress_value v
            ∧ progress_maximum
                match all_device_info a1 with
                | [] => IMEIView.show_info "Nenhum resultado encontrado." v
                | _ => IMEIView.set_export_data (all_device_info a1) v
                end = progress_maximum v) as Hfin.
  { intros v. by destruct (all_device_info a1). }
  destruct (Hfin (view a1)) as [-> ->]. rewrite Hv, Hm.
  split; [done|]. split; [done|].
  intros ->.
  pose proof (filter_length_all (λ i : string, accepted i = true) imeis)
    as HF.
  rewrite <- HF. lia.
Qed.

End BatchMore.

Lemma X6_progress_counts_accepted_lines_witness :
  let http := stub_get (λ _ _, true) in
  let batch := ["123456789012345"; "12 3"; ""; "12345678901234"] in
  ∃ a', process_imeis http "k" batch run0 = (Ok tt, a')
        ∧ progress_value (view a') = 2
        ∧ progress_maximum (view a') = 4.
Proof.
  intros http batch.
  destruct (X6_progress_counts_accepted_lines http "k" batch run0)
    as (a' & E & Hv & Hm & _); [reflexivity|discriminate|].
  exists a'. split; [exact E|]. split; [exact Hv|exact Hm].
Defined.

Section BatchEffects.

Context {T : Type}.
Variable http_get : string → T → result response * T.








(** The records of one turn. *)
Lemma turn_records (imei api_key : string) (a a1 : run T) :
  cache_ok (model a) →
  turn http_get imei api_key a a1 →
  cache_ok (model a1)
  ∧ (∀ i d, CACHE (model a) !! i = Some d → CACHE (model a1) !! i = Some d)
  ∧ ∃ new,
      all_device_info a1 = all_device_info a ++ new
      ∧ Forall (λ d, CACHE (model a1) !! IMEI d = Some d
                     ∧ accepted imei = true
                     ∧ (IMEI d = imei
                        ∨ ∃ k, (k < 10)%nat
                               ∧ IMEI d = imei +:+ str_digit k)) new.
Proof.
  intros Hok.
  destruct 1 as [B|B V|k d w' Acc L Hk Fs Ek|Acc L Fs|d w' Acc L Ek
                 |w' Acc L Ek]; cbn [model all_device_info].
  - split; [done|]. split; [done|]. exists []. by rewrite app_nil_r.
  - split; [done|]. split; [done|]. exists []. by rewrite app_nil_r.
  - destruct (all_fail_effect _ _ _ _ _ Fs) as [Hc _].
    set (wk := after_calls _ _ _) in *.
    assert (cache_ok wk) as Hokk.
    { intros i c. rewrite Hc. apply Hok. }
    destruct (get_device_info_cache_ok http_get (imei +:+ str_digit k)
                api_key wk Hokk) as [Hok' Hd].
    rewrite Ek in Hok', Hd. cbn [fst snd] in *.
    destruct (Hd d eq_refl) as [Hi Hl].
    split; [done|]. split.
    + intros i c Hic. rewrite <- Hc in Hic.
      pose proof (get_device_info_keeps http_get (imei +:+ str_digit k)
                    api_key wk i c Hic) as Hk'.
      by rewrite Ek in Hk'.
    + exists [d]. split; [done|]. constructor; [|constructor].
      rewrite Hi. split; [done|]. split; [done|]. right. eauto.
  - destruct (all_fail_effect _ _ _ _ _ Fs) as [Hc _].
    split; [|split].
    + intros i c. rewrite Hc. apply Hok.
    + intros i c. by rewrite Hc.
    + exists []. by rewrite app_nil_r.
  - destruct (get_device_info_cache_ok http_get imei api_key (model a) Hok)
      as [Hok' Hd].
    rewrite Ek in Hok', Hd. cbn [fst snd] in *.
    destruct (Hd d eq_refl) as [Hi Hl].
    split; [done|]. split.
    + intros i c Hic.
      pose proof (get_device_info_keeps http_get imei api_key _ i c Hic)
        as Hk'.
      by rewrite Ek in Hk'.
    + exists [d]. split; [done|]. constructor; [|constructor].
      rewrite Hi. split; [done|]. split; [done|]. by left.
  - destruct (get_device_info_cache_ok http_get imei api_key (model a) Hok)
      as [Hok' _].
    rewrite Ek in Hok'. split; [done|]. split.
    + intros i c Hic.
      pose proof (get_device_info_keeps http_get imei api_key _ i c Hic)
        as Hk'.
      by rewrite Ek in Hk'.
    + exists []. by rewrite app_nil_r.
Qed.

Lemma for_imei_records (api_key : string) (imeis : list string)
    (a a' : run T) :
  for_imei http_get imeis api_key a = (Ok tt, a') →
  cache_ok (model a) →
  cache_ok (model a')
  ∧ (∀ i d, CACHE (model a) !! i = Some d → CACHE (model a') !! i = Some d)
  ∧ ∃ new,
      all_device_info a' = all_device_info a ++ new
      ∧ Forall (λ d, CACHE (model a') !! IMEI d = Some d
                     ∧ ∃ x, x ∈ imeis ∧ accepted x = true
                            ∧ (IMEI d = x
                               ∨ ∃ k, (k < 10)%nat
                                      ∧ IMEI d = x +:+ str_digit k)) new.
Proof.
  revert imeis a a'.
  apply (for_imei_turns http_get api_key
           (λ imeis a a',
              cache_ok (model a) →
              cache_ok (model a')
              ∧ (∀ i d, CACHE (model a) !! i = Some d →
                        CACHE (model a') !! i = Some d)
              ∧ ∃ new,
                  all_device_info a' = all_device_info a ++ new
                  ∧ Forall (λ d, CACHE (model a') !! IMEI d = Some d
                                 ∧ ∃ x, x ∈ imeis ∧ accepted x = true
                                        ∧ (IMEI d = x
                                           ∨ ∃ k, (k < 10)%nat
                                                  ∧ IMEI d
                                                    = x +:+ str_digit k))
                      new)).
  - intros a Hok. split; [done|]. split; [done|].
    exists []. by rewrite app_nil_r.
  - intros x l a a1 a' Tn _ IH Hok.
    destruct (turn_records _ _ _ _ Hok Tn) as (Hok1 & Hk1 & new1 & E1 & F1).
    destruct (IH Hok1) as (Hok' & Hk' & new' & E' & F').
    split; [done|]. split; [by auto|].
    exists (new1 ++ new'). rewrite E', E1, <- app_assoc. split; [done|].
    apply Forall_app. split.
    + eapply Forall_impl; [exact F1|]. intros d (Hc & Acc & Hd). cbn beta.
      split; [by apply Hk'|]. exists x. split; [by left|]. done.
    + eapply Forall_impl; [exact F'|]. intros d (Hc & y & Hy & Hd).
      cbn beta. split; [done|]. exists y. split; [by right|]. done.
Qed.

(** X8: when every record of the cache is stored under its own
    identifier, that is still so after a run of [process_imeis], and every
    record of the result list is, at the end, in the cache under its
    identifier and belongs to an accepted line of the batch: its identifier
    is the line itself or the line followed by one digit. *)
Theorem X8_results_belong_to_the_batch
    (api_key : string) (imeis : list string) (a : run T) :
  str_truthy api_key = true → imeis ≠ [] →
  cache_ok (model a) →
  ∃ a', process_imeis http_get api_key imeis a = (Ok tt, a')
    ∧ cache_ok (model a')
    ∧ Forall (λ d, CACHE (model a') !! IMEI d = Some d
                   ∧ ∃ x, x ∈ imeis ∧ accepted x = true
                          ∧ (IMEI d = x
                             ∨ ∃ k, (k < 10)%nat
                                    ∧ IMEI d = x +:+ str_digit k))
        (all_device_info a').
Proof.
  intros K Hne Hok.
  destruct (process_imeis_unfold http_get api_key imeis a K Hne)
    as (a1 & E & ->).
  destruct (for_imei_records _ _ _ _ E Hok) as (Hok' & _ & new & En & F).
  eexists. split; [done|]. cbn [model all_device_info] in *.
  split; [done|]. by rewrite En.
Qed.

(** The result box and the result list of one turn. *)
Lemma turn_results (imei api_key : string) (a a1 : run T) :
  turn http_get imei api_key a a1 →
  export_data (view a1) = export_data (view a)
  ∧ ∃ new, all_device_info a1 = all_device_info a ++ new
           ∧ result_text (view a1) = result_text (view a) ++ new.
Proof.
  destruct 1; cbn; (split; [done|]);
    (by exists []; rewrite !app_nil_r) || (by eexists [_]).
Qed.

Lemma for_imei_results (api_key : string) (imeis : list string)
    (a a' : run T) :
  for_imei http_get imeis api_key a = (Ok tt, a') →
  export_data (view a') = export_data (view a)
  ∧ ∃ new, all_device_info a' = all_device_info a ++ new
           ∧ result_text (view a') = result_text (view a) ++ new.
Proof.
  revert imeis a a'. apply for_imei_turns.
  - intros a. split; [done|]. exists []. by rewrite !app_nil_r.
  - intros x l a a1 a' Tn _ (Ex' & new' & -> & ->).
    destruct (turn_results _ _ _ _ Tn) as (Ex & new & -> & ->).
    split; [congruence|]. exists (new ++ new'). by rewrite !app_assoc.
Qed.

(** X9: after a run of [process_imeis] with a key and at least one line,
    the result box shows exactly the records of the result list, in the same
    order.  When there is a record, the export data are that list; when
    there is none, the export data stay what they were before the run. *)
Theorem X9_view_shows_what_is_exported
    (api_key : string) (imeis : list string) (a : run T) :
  str_truthy api_key = true → imeis ≠ [] →
  ∃ a', process_imeis http_get api_key imeis a = (Ok tt, a')
    ∧ result_text (view a') = all_device_info a'
    ∧ (all_device_info a' ≠ [] →
       export_data (view a') = Some (all_device_info a'))
    ∧ (all_device_info a' = [] →
       export_data (view a') = export_data (view a)).
Proof.
  intros K Hne.
  destruct (process_imeis_unfold http_get api_key imeis a K Hne)
    as (a1 & E & ->).
  destruct (for_imei_results _ _ _ _ E) as (Ex & new & En & Er).
  cbn [view all_device_info result_text export_data
         IMEIView.set_progress_max IMEIView.clear_results] in *.
  rewrite app_nil_l in En, Er.
  eexists. split; [done|]. cbn [view all_device_info].
  destruct (all_device_info a1) as [|d ds] eqn:Ea; cbn.
  - split; [congruence|]. split; [done|]. intros _. exact Ex.
  - split; [congruence|]. split; [done|]. done.
Qed.

(** The turn of an accepted line of 15 digits that is in the cache. *)
Lemma turn_cached (imei api_key : string) (a a1 : run T)
    (cached : device_info) :
  accepted imei = true → len imei = 15 →
  CACHE (model a) !! imei = Some cached →
  turn http_get imei api_key a a1 →
  CACHE (model a1) = CACHE (model a)
  ∧ requests (model a1) = requests (model a)
  ∧ net (model a1) = net (model a)
  ∧ all_device_info a1 = all_device_info a ++ [cached].
Proof.
  intros Acc L H.
  destruct 1 as [B|B V|k d w' _ L' _ _ _|_ L' _|d w' _ _ Ek|w' _ _ Ek].
  - by rewrite (accepted_blank _ B) in Acc.
  - by rewrite (accepted_invalid _ V) in Acc.
  - lia.
  - lia.
  - rewrite (get_device_info_hit _ _ _ _ _ H) in Ek.
    by injection Ek as <- <-.
  - by rewrite (get_device_info_hit _ _ _ _ _ H) in Ek.
Qed.

Lemma for_imei_cached (api_key : string) (imeis : list string)
    (a a' : run T) :
  for_imei http_get imeis api_key a = (Ok tt, a') →
  Forall (λ i, accepted i = true ∧ len i = 15
               ∧ is_Some (CACHE (model a) !! i)) imeis →
  CACHE (model a') = CACHE (model a)
  ∧ requests (model a') = requests (model a)
  ∧ net (model a') = net (model a)
  ∧ all_device_info a'
    = all_device_info a ++ omap (λ i, CACHE (model a) !! i) imeis.
Proof.
  revert imeis a a'.
  apply (for_imei_turns http_get api_key
           (λ imeis a a',
              Forall (λ i, accepted i = true ∧ len i = 15
                           ∧ is_Some (CACHE (model a) !! i)) imeis →
              CACHE (model a') = CACHE (model a)
              ∧ requests (model a') = requests (model a)
              ∧ net (model a') = net (model a)
              ∧ all_device_info a'
                = all_device_info a
                  ++ omap (λ i, CACHE (model a) !! i) imeis)).
  - intros a _. by rewrite app_nil_r.
  - intros x l a a1 a' Tn _ IH [(Acc & L & [c Hc]) F]%Forall_cons.
    destruct (turn_cached _ _ _ _ _ Acc L Hc Tn) as (C1 & R1 & N1 & A1).
    destruct IH as (C' & R' & N' & A'); [by rewrite C1|].
    rewrite C', R', N', A', C1, R1, N1, A1.
    change (omap (λ i, CACHE (model a) !! i) (x :: l))
      with (match CACHE (model a) !! x with
            | Some c => c :: omap (λ i, CACHE (model a) !! i) l
            | None => omap (λ i, CACHE (model a) !! i) l
            end).
    rewrite Hc. by rewrite <- app_assoc.
Qed.

(** X10: a batch whose lines are all accepted identifiers of 15 digits
    that are in the cache sends no request and leaves the network and the
    cache as they were; its result list is the cached records of the lines,
    one per line in the order of the batch, a line that occurs twice giving
    its record twice. *)
Theorem X10_cached_batch_sends_no_request
    (api_key : string) (imeis : list string) (a : run T) :
  str_truthy api_key = true → imeis ≠ [] →
  Forall (λ i, accepted i = true ∧ len i = 15
               ∧ is_Some (CACHE (model a) !! i)) imeis →
  ∃ a', process_imeis http_get api_key imeis a = (Ok tt, a')
    ∧ requests (model a') = requests (model a)
    ∧ net (model a') = net (model a)
    ∧ CACHE (model a') = CACHE (model a)
    ∧ all_device_info a' = omap (λ i, CACHE (model a) !! i) imeis
    ∧ length (all_device_info a') = length imeis.
Proof.
  intros K Hne F.
  destruct (process_imeis_unfold http_get api_key imeis a K Hne)
    as (a1 & E & ->).
  destruct (for_imei_cached _ _ _ _ E F) as (C & R & N & A).
  cbn [model all_device_info] in *. rewrite app_nil_l in A.
  eexists. split; [done|]. cbn [model all_device_info].
  split; [done|]. split; [done|]. split; [done|]. split; [done|].
  rewrite A. clear -F. induction F as [|x l (_ & _ & [c Hc]) F IH]; [done|].
  change (omap (λ i, CACHE (model a) !! i) (x :: l))
    with (match CACHE (model a) !! x with
          | Some c => c :: omap (λ i, CACHE (model a) !! i) l
          | None => omap (λ i, CACHE (model a) !! i) l
          end).
  rewrite Hc. simpl. by rewrite IH.
Qed.

End BatchEffects.


Lemma X8_results_belong_to_the_batch_witness :
  let http := stub_get (λ _ n, 3 <=? n)%nat in
  ∃ a', process_imeis http "k" ["12345678901234"; "123456789012345"] run0
        = (Ok tt, a')
        ∧ cache_ok (model a')
        ∧ map IMEI (all_device_info a')
          = ["123456789012343"; "123456789012345"].
Proof.
  intros http.
  destruct (X8_results_belong_to_the_batch http "k"
              ["12345678901234"; "123456789012345"] run0)
    as (a' & E & Hok & _); [reflexivity|discriminate| |].
  { intros k d H. unfold run0, world0 in H. cbn [model CACHE] in H.
    by rewrite lookup_empty in H. }
  exists a'. split; [exact E|]. split; [exact Hok|].
  vm_compute in E. injection E as <-. reflexivity.
Defined.

Lemma X9_view_shows_what_is_exported_witness :
  let http := stub_get (λ _ n, n <? 1)%nat in
  let a := (process_imeis http "k" ["123456789012345"] run0).2 in
  ∃ a', process_imeis http "k" ["123456789012346"] a = (Ok tt, a')
        ∧ result_text (view a') = all_device_info a'
        ∧ all_device_info a' = []
        ∧ export_data (view a')
          = Some [DeviceInfo "123456789012345" (PStr "Acme") (PStr "X1")
                    "Desconhecido"].
Proof.
  intros http a.
  destruct (X9_view_shows_what_is_exported http "k" ["123456789012346"] a)
    as (a' & E & Hr & _ & Hx); [reflexivity|discriminate|].
  assert (all_device_info a' = []) as Hn.
  { vm_compute in E. by injection E as <-. }
  exists a'. split; [exact E|]. split; [exact Hr|]. split; [exact Hn|].
  rewrite (Hx Hn). reflexivity.
Defined.

Lemma X10_cached_batch_sends_no_request_witness :
  let http := stub_get (λ _ _, true) in
  let a := (process_imeis http "k" ["123456789012345"] run0).2 in
  ∃ a', process_imeis http "k" ["123456789012345"; "123456789012345"] a
        = (Ok tt, a')
        ∧ requests (model a') = requests (model a)
        ∧ length (all_device_info a') = 2%nat.
Proof.
  intros http a.
  destruct (X10_cached_batch_sends_no_request http "k"
              ["123456789012345"; "123456789012345"] a)
    as (a' & E & R & _ & _ & _ & L); [reflexivity|discriminate| |].
  { repeat constructor; by eexists. }
  exists a'. split; [exact E|]. split; [exact R|exact L].
Defined.

(** * Properties of the key file and of the input widgets *)

Lemma chars_of_list (cs : list ascii) :
  chars (String.string_of_list_ascii cs) = cs.
Proof. apply String.list_ascii_of_string_of_list_ascii. Qed.

Lemma of_list_chars (s : string) :
  String.string_of_list_ascii (chars s) = s.
Proof. apply String.string_of_list_ascii_of_string. Qed.

Lemma chars_app (s1 s2 : string) : chars (s1 +:+ s2) = chars s1 ++ chars s2.
Proof.
  induction s1 as [|c s1 IH]; [done|].
  change (chars (String c (s1 +:+ s2)) = c :: (chars s1 ++ chars s2)).
  unfold chars in *. simpl. by rewrite IH.
Qed.

Lemma lstrip_head (cs : list ascii) (c : ascii) (r : list ascii) :
  lstrip_chars cs = c :: r → char_isspace c = false.
Proof.
  induction cs as [|x cs IH]; simpl; [done|].
  destruct (char_isspace x) eqn:S; [done|]. by intros [= <- _].
Qed.

Lemma lstrip_clean (cs : list ascii) :
  match cs with c :: _ => char_isspace c = false | [] => True end →
  lstrip_chars cs = cs.
Proof. destruct cs as [|c cs]; simpl; [done|]. by intros ->. Qed.


Lemma lstrip_suffix (cs : list ascii) :
  ∃ ws, cs = ws ++ lstrip_chars cs.
Proof.
  induction cs as [|x cs [ws IH]]; simpl; [by exists []|].
  destruct (char_isspace x); [|by exists []].
  exists (x :: ws). simpl. by f_equal.
Qed.

Lemma chars_strip (s : string) :
  chars (strip s)
  = rev (lstrip_chars (rev (lstrip_chars (chars s)))).
Proof. unfold strip. apply chars_of_list. Qed.

(** The trimmed form starts clean. *)
Lemma strip_head_clean (s : string) :
  match chars (strip s) with
  | c :: _ => char_isspace c = false
  | [] => True
  end.
Proof.
  rewrite chars_strip.
  set (L := lstrip_chars (chars s)).
  set (X := lstrip_chars (rev L)).
  destruct (rev X) as [|c r] eqn:E; [done|].
  destruct (lstrip_suffix (rev L)) as [ws Hws]. fold X in Hws.
  apply (f_equal (@rev ascii)) in Hws.
  rewrite rev_involutive, rev_app_distr, E in Hws. simpl in Hws.
  by apply (lstrip_head (chars s) c (r ++ rev ws)).
Qed.













Lemma linebreak_is_space (c : ascii) :
  is_linebreak c = true → char_isspace c = true.
Proof.
  unfold is_linebreak, char_isspace. intros H.
  repeat (rewrite ?orb_true_iff, ?andb_true_iff, ?Z.leb_le, ?Z.eqb_eq in H).
  repeat (rewrite ?orb_true_iff, ?andb_true_iff, ?Z.leb_le, ?Z.eqb_eq).
  lia.
Qed.

Lemma clean_not_linebreak (c : ascii) :
  char_isspace c = false → is_linebreak c = false.
Proof.
  intros S. destruct (is_linebreak c) eqn:B; [|done].
  apply linebreak_is_space in B. congruence.
Qed.

(** A line without boundary, followed by a newline. *)
Lemma splitlines_from_line (l : list ascii) :
  ∀ acc rest,
    forallb (λ c, negb (is_linebreak c)) l = true →
    splitlines_from acc (l ++ chr 10 :: rest)
    = String.string_of_list_ascii (rev acc ++ l) :: splitlines_from [] rest.
Proof.
  assert (is_linebreak (chr 10) = true) as Hlb by reflexivity.
  assert ((ord (chr 10) =? 13) = false) as H13 by reflexivity.
  induction l as [|c l IH]; intros acc rest H.
  - rewrite app_nil_r. cbn [Datatypes.app splitlines_from]. rewrite Hlb.
    destruct rest; [done|]. by rewrite H13.
  - simpl in H. apply andb_prop in H as [Hc Hl].
    apply negb_true_iff in Hc.
    cbn [Datatypes.app splitlines_from]. rewrite Hc, (IH _ _ Hl).
    cbn [rev]. by rewrite <- app_assoc.
Qed.

(** A last line without boundary and without a newline after it. *)
Lemma splitlines_from_last (l : list ascii) :
  ∀ acc,
    forallb (λ c, negb (is_linebreak c)) l = true →
    rev acc ++ l ≠ [] →
    splitlines_from acc l = [String.string_of_list_ascii (rev acc ++ l)].
Proof.
  induction l as [|c l IH]; intros acc H Hne.
  - rewrite app_nil_r in *. destruct acc; [done|reflexivity].
  - simpl in H. apply andb_prop in H as [Hc Hl].
    apply negb_true_iff in Hc.
    cbn [splitlines_from]. rewrite Hc, (IH _ Hl).
    + cbn [rev]. by rewrite <- app_assoc.
    + cbn [rev]. rewrite <- app_assoc. by destruct (rev acc).
Qed.

Lemma chars_unlines_cons (l l' : string) (ls : list string) :
  chars (unlines (l :: l' :: ls))
  = chars l ++ chr 10 :: chars (unlines (l' :: ls)).
Proof.
  change (unlines (l :: l' :: ls))
    with (l +:+ String (chr 10) (unlines (l' :: ls))).
  by rewrite chars_app.
Qed.

Lemma splitlines_unlines (lines : list string) :
  Forall (λ l, one_line l = true) lines →
  last lines ≠ Some "" →
  splitlines (unlines lines) = lines.
Proof.
  unfold splitlines.
  induction lines as [|l [|l' ls] IH]; intros F Hl.
  - reflexivity.
  - apply Forall_cons in F as [Hone _]. cbn [unlines].
    rewrite splitlines_from_last; [|done|].
    + cbn [rev Datatypes.app]. by rewrite of_list_chars.
    + cbn [rev Datatypes.app]. intros E. apply Hl. cbn. f_equal.
      by rewrite <- (of_list_chars l), E.
  - apply Forall_cons in F as [Hone F].
    rewrite chars_unlines_cons, splitlines_from_line by done.
    cbn [rev Datatypes.app]. rewrite of_list_chars. f_equal.
    apply IH; [done|]. by rewrite last_cons_cons in Hl.
Qed.

Lemma unlines_head (lines : list string) (l1 : string) (c : ascii)
    (r : list ascii) :
  head lines = Some l1 → chars l1 = c :: r →
  ∃ r', chars (unlines lines) = c :: r'.
Proof.
  destruct lines as [|l [|l' ls]]; intros [= <-] E.
  - cbn [unlines]. eauto.
  - rewrite chars_unlines_cons, E. simpl. eauto.
Qed.

Lemma unlines_last (lines : list string) (ln : string) (c : ascii)
    (r : list ascii) :
  last lines = Some ln → chars ln = r ++ [c] →
  ∃ r', chars (unlines lines) = r' ++ [c].
Proof.
  induction lines as [|l [|l' ls] IH]; intros Hl E.
  - done.
  - injection Hl as <-. cbn [unlines]. eauto.
  - rewrite last_cons_cons in Hl. destruct (IH Hl E) as [r' Hr'].
    rewrite chars_unlines_cons, Hr'.
    exists (chars l ++ chr 10 :: r'). by rewrite <- app_assoc.
Qed.

(** A text that starts and ends clean, with the newline of the box after
    it, is trimmed to itself. *)
Lemma strip_clean_text (s : string) (c c' : ascii) (r r' : list ascii) :
  chars s = c :: r → char_isspace c = false →
  chars s = r' ++ [c'] → char_isspace c' = false →
  strip (s +:+ String (chr 10) "") = s.
Proof.
  intros E Hc E' Hc'. unfold strip. rewrite chars_app.
  change (chars (String (chr 10) "")) with [chr 10].
  rewrite (lstrip_clean (chars s ++ [chr 10])) by (rewrite E; exact Hc).
  rewrite rev_app_distr. cbn [rev Datatypes.app].
  assert (char_isspace (chr 10) = true) as Hnl by reflexivity.
  cbn [lstrip_chars]. rewrite Hnl.
  rewrite lstrip_clean.
  - by rewrite rev_involutive, of_list_chars.
  - rewrite E', rev_app_distr. by simpl.
Qed.

(** X13: a box that holds lines without line boundaries, the first one
    starting and the last one ending with a character that is not white
    space, gives exactly these lines to [get_imeis], blank lines in between
    included. *)
Theorem X13_get_imeis_returns_the_lines
    (key : string) (lines : list string) (l1 ln : string)
    (c c' : ascii) (r r' : list ascii) :
  Forall (λ l, one_line l = true) lines →
  head lines = Some l1 → chars l1 = c :: r → char_isspace c = false →
  last lines = Some ln → chars ln = r' ++ [c'] → char_isspace c' = false →
  get_imeis (Widgets key (unlines lines +:+ String (chr 10) "")) = lines.
Proof.
  intros F H1 E1 Hc Hn En Hc'. unfold get_imeis. cbn [imei_text].
  destruct (unlines_head _ _ _ _ H1 E1) as [u Hu].
  destruct (unlines_last _ _ _ _ Hn En) as [u' Hu'].
  rewrite (strip_clean_text _ _ _ _ _ Hu Hc Hu' Hc').
  apply splitlines_unlines; [done|].
  rewrite Hn. intros [= ->]. by destruct r'.
Qed.

Lemma X13_get_imeis_returns_the_lines_witness :
  get_imeis
    (Widgets "k" (unlines ["123456789012345"; ""; " 12345678901234"]
                  +:+ String (chr 10) ""))
  = ["123456789012345"; ""; " 12345678901234"].
Proof.
  apply (X13_get_imeis_returns_the_lines "k"
           ["123456789012345"; ""; " 12345678901234"]
           "123456789012345" " 12345678901234"
           "1"%char "4"%char (chars "23456789012345")
           (chars " 1234567890123"));
    (by repeat constructor) || reflexivity.
Defined.

Lemma splitlines_from_one_line (n : nat) :
  ∀ cs acc,
    (length cs ≤ n)%nat →
    forallb (λ c, negb (is_linebreak c)) acc = true →
    Forall (λ l, one_line l = true) (splitlines_from acc cs).
Proof.
  assert (∀ acc, forallb (λ c, negb (is_linebreak c)) acc = true →
                 one_line (String.string_of_list_ascii (rev acc)) = true)
    as Hline.
  { intros acc H. unfold one_line. by rewrite chars_of_list, forallb_rev. }
  induction n as [|n IH]; intros cs acc Hn H.
  - destruct cs; [|simpl in Hn; lia].
    destruct acc; cbn [splitlines_from]; repeat constructor.
    by apply Hline.
  - destruct cs as [|c cs']; cbn [splitlines_from].
    + destruct acc; repeat constructor. by apply Hline.
    + simpl in Hn. destruct (is_linebreak c) eqn:B.
      * constructor; [by apply Hline|].
        destruct cs' as [|c' cs'']; [by apply IH; [simpl; lia|]|].
        simpl in Hn.
        destruct ((ord c =? 13) && (ord c' =? 10));
          apply IH; simpl; done || lia.
      * apply IH; [lia|]. simpl. by rewrite B.
Qed.

Lemma splitlines_from_nonempty (cs : list ascii) :
  ∀ acc, acc ≠ [] → splitlines_from acc cs ≠ [].
Proof.
  induction cs as [|c cs IH]; intros acc Hne; cbn [splitlines_from].
  - by destruct acc.
  - destruct (is_linebreak c); [done|]. by apply IH.
Qed.

Lemma splitlines_nil_iff (s : string) : splitlines s = [] ↔ s = "".
Proof.
  unfold splitlines. destruct s as [|c s]; [done|]. split; [|done].
  change (chars (String c s)) with (c :: chars s). cbn [splitlines_from].
  destruct (is_linebreak c); [done|].
  intros E. by apply splitlines_from_nonempty in E.
Qed.

Lemma splitlines_from_first (cs : list ascii) :
  ∀ acc l ls,
    acc ≠ [] → splitlines_from acc cs = l :: ls →
    ∃ tail, chars l = rev acc ++ tail.
Proof.
  induction cs as [|c cs IH]; intros acc l ls Hne; cbn [splitlines_from].
  - destruct acc; [done|]. intros [= <- _]. exists [].
    by rewrite chars_of_list, app_nil_r.
  - destruct (is_linebreak c).
    + intros [= <- _]. exists []. by rewrite chars_of_list, app_nil_r.
    + intros E. destruct (IH (c :: acc) l ls) as [tail Ht]; [done..|].
      exists (c :: tail). rewrite Ht. cbn [rev]. by rewrite <- app_assoc.
Qed.

Lemma lstrip_app_clean (l : list ascii) (c : ascii) :
  char_isspace c = false → lstrip_chars (l ++ [c]) ≠ [].
Proof.
  intros Hc. induction l as [|x l IH]; simpl.
  - by rewrite Hc.
  - by destruct (char_isspace x).
Qed.

Lemma clean_start_non_blank (l : string) (c : ascii) (tail : list ascii) :
  chars l = c :: tail → char_isspace c = false → non_blank l = true.
Proof.
  intros E Hc. unfold non_blank.
  destruct (strip l) eqn:S; [|done]. exfalso.
  apply (f_equal chars) in S. rewrite chars_strip, E in S.
  rewrite (lstrip_clean (c :: tail)) in S by done.
  cbn [rev] in S. change (chars "") with (@nil ascii) in S.
  apply (f_equal (@rev ascii)) in S. rewrite rev_involutive in S.
  by apply (lstrip_app_clean (rev tail) c Hc).
Qed.

(** X14: no line that [get_imeis] returns has a line boundary inside;
    it returns no line at all exactly when the box is blank; and the first
    line it returns is never blank. *)
Theorem X14_get_imeis_lines (g : widgets) :
  Forall (λ l, one_line l = true) (get_imeis g)
  ∧ (get_imeis g = [] ↔ strip (imei_text g) = "")
  ∧ (∀ l ls, get_imeis g = l :: ls → non_blank l = true).
Proof.
  unfold get_imeis. split; [|split].
  - by apply (splitlines_from_one_line _ _ [] (Nat.le_refl _)).
  - apply splitlines_nil_iff.
  - intros l ls E. pose proof (strip_head_clean (imei_text g)) as Hc.
    unfold splitlines in E.
    destruct (chars (strip (imei_text g))) as [|c r]; [done|].
    cbn [splitlines_from] in E.
    rewrite (clean_not_linebreak _ Hc) in E.
    apply splitlines_from_first in E as [tail Ht]; [|done].
    by apply (clean_start_non_blank l c tail).
Qed.

Lemma X14_get_imeis_lines_witness :
  let g := Widgets "k" (" 123456789012345 " +:+ String (chr 10)
                          (String (chr 10)  "12345678901234 ")) in
  get_imeis g = ["123456789012345 "; ""; "12345678901234"]
  ∧ non_blank "123456789012345 " = true.
Proof.
  intros g. split; [reflexivity|].
  destruct (X14_get_imeis_lines g) as (_ & _ & H).
  by apply (H "123456789012345 " [""; "12345678901234"]).
Defined.

Section Start.

Context {T : Type}.
Variable http_get : string → T → result response * T.

(** X15: when the key entry or the box of identifiers is blank,
    [process_imeis] shows its one error box and does nothing else (no
    request, no change of the cache, of the result box or of the progress
    bar), but the trimmed entry has been written to the key file all the
    same. *)
Theorem X15_blank_inputs_only_show_an_error
    (g : widgets) (fs : gmap string string) (a : run T) :
  strip (api_key_entry g) = "" ∨ strip (imei_text g) = "" →
  start_processing http_get g fs a
  = ((Ok tt,
      Run (model a)
          (IMEIView.show_error
             "Por favor, insira a chave da API e pelo menos um IMEI."
             (view a))
          (all_device_info a)),
     salvar_chave_api (strip (api_key_entry g)) fs).
Proof.
  intros H. unfold start_processing, get_api_key, process_imeis.
  destruct H as [->|H].
  - reflexivity.
  - pose proof (X := splitlines_nil_iff (strip (imei_text g))).
    unfold get_imeis. destruct X as [_ ->]; [|done].
    by rewrite orb_true_r.
Qed.

End Start.

Lemma X15_blank_inputs_only_show_an_error_witness :
  let g := Widgets "my-key" (String (chr 10) "  ") in
  let r := start_processing (stub_get (λ _ _, true)) g ∅ run0 in
  requests (model r.1.2) = []
  ∧ r.2 !! "api_key.txt" = Some "my-key"
  ∧ dialogs (view r.1.2)
    = [showerror "Por favor, insira a chave da API e pelo menos um IMEI."].
Proof.
  intros g r. subst r.
  rewrite (X15_blank_inputs_only_show_an_error (stub_get (λ _ _, true))
             g ∅ run0); [|right; reflexivity].
  repeat split.
Defined.

Section Boxes.

Context {T : Type}.
Variable http_get : string → T → result response * T.

Lemma turn_15_no_box (imei api_key : string) (a a1 : run T) :
  non_blank imei = false ∨ (accepted imei = true ∧ len imei = 15) →
  turn http_get imei api_key a a1 →
  dialogs (view a1) = dialogs (view a).
Proof.
  intros H.
  destruct 1 as [B|B V|k d w' Acc L Hk Fs Ek|Acc L Fs|d w' Acc L Ek
                 |w' Acc L Ek]; cbn; try done.
  - destruct H as [H|[H _]]; [congruence|].
    by rewrite (accepted_invalid _ V) in H.
  - destruct H as [H|[_ H]]; [|lia]. by rewrite (accepted_blank _ H) in Acc.
Qed.

Lemma for_imei_15_no_box (api_key : string) (imeis : list string)
    (a a' : run T) :
  for_imei http_get imeis api_key a = (Ok tt, a') →
  Forall (λ i, non_blank i = false ∨ (accepted i = true ∧ len i = 15))
    imeis →
  dialogs (view a') = dialogs (view a).
Proof.
  revert imeis a a'.
  apply (for_imei_turns http_get api_key
           (λ imeis a a',
              Forall (λ i, non_blank i = false
                           ∨ (accepted i = true ∧ len i = 15)) imeis →
              dialogs (view a') = dialogs (view a))).
  - done.
  - intros x l a a1 a' Tn _ IH [Hx F]%Forall_cons.
    rewrite (IH F). by apply (turn_15_no_box x api_key).
Qed.

(** X16: a batch whose lines are blank or accepted identifiers of 15
    digits shows no error box, whatever the service answers: a lookup of a
    15-digit identifier that fails is not reported.  The only message of the
    run is the closing one, "Nenhum resultado encontrado." when no record
    was found. *)
Theorem X16_failed_15_digit_lookups_are_silent
    (api_key : string) (imeis : list string) (a : run T) :
  str_truthy api_key = true → imeis ≠ [] →
  Forall (λ i, non_blank i = false ∨ (accepted i = true ∧ len i = 15))
    imeis →
  ∃ a' message,
    process_imeis http_get api_key imeis a = (Ok tt, a')
    ∧ dialogs (view a') = dialogs (view a) ++ [showinfo message]
    ∧ (all_device_info a' = [] →
       message = "Nenhum resultado encontrado.").
Proof.
  intros K Hne F.
  destruct (process_imeis_unfold http_get api_key imeis a K Hne)
    as (a1 & E & ->).
  pose proof (for_imei_15_no_box _ _ _ _ E F) as D.
  cbn [view dialogs IMEIView.set_progress_max IMEIView.clear_results] in D.
  destruct (all_device_info a1) as [|d ds] eqn:Ea.
  - eexists. eexists. split; [done|]. cbn. by rewrite D.
  - eexists. eexists. split; [done|]. cbn. rewrite D. split; done.
Qed.

End Boxes.

Lemma X16_failed_15_digit_lookups_are_silent_witness :
  ∃ a', process_imeis stub_down "k" ["123456789012345"; "123456789012346"]
          run0 = (Ok tt, a')
        ∧ dialogs (view a') = [showinfo "Nenhum resultado encontrado."]
        ∧ progress_value (view a') = 2.
Proof.
  destruct (X16_failed_15_digit_lookups_are_silent stub_down "k"
              ["123456789012345"; "123456789012346"] run0)
    as (a' & message & E & D & M); [reflexivity|discriminate| |].
  { repeat constructor; right; split; reflexivity. }
  exists a'. split; [exact E|].
  assert (all_device_info a' = [] ∧ progress_value (view a') = 2) as [Hn Hp].
  { vm_compute in E. by injection E as <-. }
  rewrite D, (M Hn). split; [reflexivity|exact Hp].
Defined.
